(** * The Sparkify ETL job (etl.py), embedded in Rocq

    The job reads two JSON datasets (song catalog and event log), derives
    the star-schema tables with Spark DataFrame operations and Python
    UDFs, and writes them as parquet datasets.

    The embedding has four layers:
    - [Py]       the Python values and built-ins the UDF lambdas use
                 ([int], true division, [str], [datetime.fromtimestamp],
                 [weekday], [isocalendar], [calendar.day_name]);
    - [Spark]    the DataFrame operations the job calls (column selection,
                 [distinct], [withColumn] with a UDF, inner [join],
                 [monotonically_increasing_id], parquet read and write);
    - [Etl]      the job itself, function by function;
    - the properties, with a small sample run.

    What the embedding fixes:
    - the Python layer is CPython 3.11 (Unicode 14.0) on a platform with a
      64-bit [time_t] and a C library that leaves leap seconds out; a
      [str] is held as its UTF-8 encoding;
    - a column that a UDF fills holds, row by row, the outcome of the
      lambda: Spark runs the lambdas inside the job of the next action
      that needs the column, so an exception of a lambda fails that job
      and not the line that defines the column; a UDF applied to such a
      column gets the Python value the first lambda returns;
    - [udf(f)] without a return type makes a string column: what a job
      computes for its cells are strings;
    - what the job cannot see in its own code is a field of the session:
      the time zone of the workers, the text of a Java object, equality
      across SQL types, the values read back from partition directories,
      and the partitioning of a result;
    - column names are compared exactly; [distinct] compares rows cell by
      cell, NULL equal to NULL; a join condition never holds on NULL;
    - the credentials read from [dl.cfg] at import are not part of the
      model. *)

From Stdlib Require Import ZArith Lia List Bool Ascii String.
From Stdlib Require Import Floats.SpecFloat.
From stdpp Require Import base option list strings gmap pretty sorting.

Local Open Scope string_scope.
Local Open Scope list_scope.
Local Open Scope Z_scope.

(** ** Exceptions and the error monad *)

Inductive exn : Type :=
  | TypeError
  | ValueError
  | OverflowError
  | OSError
  | ZeroDivisionError
  | AttributeError
  | AnalysisException
  | IllegalArgumentException
  | Py4JJavaError.

Global Instance exn_eq_dec : EqDecision exn.
Proof. solve_decision. Defined.

Inductive result (A : Type) : Type :=
  | Ok (a : A)
  | Raise (e : exn).
Arguments Ok {A} a.
Arguments Raise {A} e.

Definition rbind {A B} (m : result A) (f : A → result B) : result B :=
  match m with
  | Ok a => f a
  | Raise e => Raise e
  end.

Notation "'try' x := m 'in' k" := (rbind m (λ x, k))
  (at level 10, x pattern, m at level 100, k at level 200,
   format "'[v' 'try'  x  :=  m  'in' '/' k ']'").

Definition rmap {A B} (f : A → B) (m : result A) : result B :=
  match m with
  | Ok a => Ok (f a)
  | Raise e => Raise e
  end.

Infix "<$$>" := rmap (at level 61, left associativity).

Global Instance result_eq_dec {A} `{EqDecision A} : EqDecision (result A).
Proof. solve_decision. Defined.

Definition raises {A} (r : result A) : Prop := ∃ e, r = Raise e.

(** [mapM] over a list, stopping at the first exception. *)
Fixpoint result_mapM {A B} (f : A → result B) (l : list A) : result (list B) :=
  match l with
  | [] => Ok []
  | a :: l' => try b := f a in try bs := result_mapM f l' in Ok (b :: bs)
  end.

(** ** Python values and built-ins *)

Module Py.

(** A naive [datetime] (no tzinfo).  [fromtimestamp] of an [int] always
    gives microsecond 0. *)
Record datetime : Type := mkDatetime {
  dt_year : Z; dt_month : Z; dt_day : Z;
  dt_hour : Z; dt_minute : Z; dt_second : Z;
  dt_fold : bool
}.

Global Instance datetime_eq_dec : EqDecision datetime.
Proof. solve_decision. Defined.

Global Instance spec_float_eq_dec : EqDecision spec_float.
Proof. solve_decision. Defined.

(** The values a cell of a DataFrame holds when it reaches a Python UDF,
    and the values a UDF lambda of the job returns.  A [str] is held as
    its UTF-8 encoding. *)
Inductive value : Type :=
  | VNull                       (* None / SQL NULL *)
  | VBool (b : bool)
  | VInt (n : Z)                (* Python int (unbounded) *)
  | VDouble (f : spec_float)    (* Python float: IEEE-754 binary64 *)
  | VStr (s : string)
  | VDateTime (d : datetime).

Global Instance value_eq_dec : EqDecision value.
Proof. solve_decision. Defined.

(** *** [int(x)] *)

Definition byte_of (a : ascii) : Z := Z.of_N (N_of_ascii a).

Definition continuation (b : Z) : bool := (128 <=? b) && (b <=? 191).

(** The code points of the [str] whose UTF-8 encoding is [s]; there are
    none when [s] is not the encoding of a [str]. *)
Fixpoint utf8_decode (s : string) : option (list Z) :=
  match s with
  | EmptyString => Some []
  | String a s1 =>
      let a := byte_of a in
      if a <? 128 then cons a <$> utf8_decode s1
      else
        match s1 with
        | EmptyString => None
        | String b s2 =>
            let b := byte_of b in
            if (194 <=? a) && (a <=? 223) then
              if continuation b
              then cons ((a - 192) * 64 + (b - 128)) <$> utf8_decode s2
              else None
            else
              match s2 with
              | EmptyString => None
              | String c s3 =>
                  let c := byte_of c in
                  if (224 <=? a) && (a <=? 239) then
                    let cp := (a - 224) * 4096 + (b - 128) * 64 + (c - 128) in
                    if continuation b && continuation c && (2048 <=? cp)
                       && negb ((55296 <=? cp) && (cp <=? 57343))
                    then cons cp <$> utf8_decode s3
                    else None
                  else
                    match s3 with
                    | EmptyString => None
                    | String d s4 =>
                        let d := byte_of d in
                        let cp := (a - 240) * 262144 + (b - 128) * 4096
                                  + (c - 128) * 64 + (d - 128) in
                        if (240 <=? a) && (a <=? 244) && continuation b
                           && continuation c && continuation d
                           && (65536 <=? cp) && (cp <=? 1114111)
                        then cons cp <$> utf8_decode s4
                        else None
                    end
              end
        end
  end.

(** [Py_UNICODE_ISSPACE] above ASCII. *)
Definition unicode_spaces : list Z :=
  [133; 160; 5760; 8192; 8193; 8194; 8195; 8196; 8197; 8198; 8199; 8200;
   8201; 8202; 8232; 8233; 8239; 8287; 12288].

(** The code points above ASCII with decimal value 0 (Unicode 14.0); the
    nine code points after each of them are the digits 1 to 9. *)
Definition unicode_zeros : list Z :=
  [1632; 1776; 1984; 2406; 2534; 2662; 2790; 2918; 3046; 3174; 3302; 3430;
   3558; 3664; 3792; 3872; 4160; 4240; 6112; 6160; 6470; 6608; 6784; 6800;
   6992; 7088; 7232; 7248; 42528; 43216; 43264; 43472; 43504; 43600; 44016;
   65296; 66720; 68912; 69734; 69872; 69942; 70096; 70384; 70736; 70864;
   71248; 71360; 71472; 71904; 72016; 72784; 73040; 73120; 92768; 92864;
   93008; 120782; 120792; 120802; 120812; 120822; 123200; 123632; 125264;
   130032].

Definition Py_UNICODE_ISSPACE (ch : Z) : bool :=
  bool_decide (ch ∈ unicode_spaces).

Definition Py_UNICODE_TODECIMAL (ch : Z) : option Z :=
  (λ z, ch - z) <$> List.find (λ z, (z <=? ch) && (ch <? z + 10)) unicode_zeros.

(** [_PyUnicode_TransformDecimalAndSpaceToASCII]: a [str] that is not
    ASCII has its spaces replaced by [' '] and its decimal digits by ASCII
    digits; it ends in ['?'] at the first other character at or above
    code 127. *)
Fixpoint transform (cps : list Z) : list Z :=
  match cps with
  | [] => []
  | ch :: cps' =>
      if ch <? 127 then ch :: transform cps'
      else if Py_UNICODE_ISSPACE ch then 32 :: transform cps'
      else match Py_UNICODE_TODECIMAL ch with
           | Some d => (48 + d) :: transform cps'
           | None => [63]
           end
  end.

Definition TransformDecimalAndSpaceToASCII (cps : list Z) : list Z :=
  if forallb (λ ch, ch <? 128) cps then cps else transform cps.

(** [Py_ISSPACE]: the blanks [PyLong_FromString] skips. *)
Definition Py_ISSPACE (c : Z) : bool := (c =? 32) || (9 <=? c) && (c <=? 13).

Fixpoint skip_spaces (l : list Z) : list Z :=
  match l with
  | c :: l' => if Py_ISSPACE c then skip_spaces l' else l
  | [] => []
  end.

(** The scan of the digits of a decimal literal: single underscores may
    separate digits.  It gives the number, the count of its digits and
    what follows the literal. *)
Fixpoint scan_digits (l : list Z) (acc digits : Z) (prev_underscore : bool)
  : option (Z * Z * list Z) :=
  match l with
  | c :: l' =>
      if (48 <=? c) && (c <=? 57)
      then scan_digits l' (10 * acc + (c - 48)) (digits + 1) false
      else if c =? 95
      then if prev_underscore then None else scan_digits l' acc digits true
      else if prev_underscore then None else Some (acc, digits, l)
  | [] => if prev_underscore then None else Some (acc, digits, [])
  end.

(** [sys.get_int_max_str_digits()]. *)
Definition max_str_digits : Z := 4300.

(** [PyLong_FromString] in base 10. *)
Definition PyLong_FromString (l : list Z) : option Z :=
  let l := skip_spaces l in
  let '(negative, l) :=
    match l with
    | 43 :: l' => (false, l')
    | 45 :: l' => (true, l')
    | _ => (false, l)
    end in
  match l with
  | 95 :: _ => None
  | _ =>
      '(n, digits, rest) ← scan_digits l 0 0 false;
      if (digits =? 0) || (max_str_digits <? digits) then None
      else match skip_spaces rest with
           | [] => Some (if negative : bool then - n else n)
           | _ => None
           end
  end.

(** [int(s)] for a [str]. *)
Definition int_of_string (s : string) : option Z :=
  cps ← utf8_decode s;
  PyLong_FromString (TransformDecimalAndSpaceToASCII cps).

(** [int(float)]: truncation toward zero. *)
Definition int_of_float (f : spec_float) : result Z :=
  match f with
  | S754_zero _ => Ok 0
  | S754_infinity _ => Raise OverflowError
  | S754_nan => Raise ValueError
  | S754_finite s m e =>
      let mag := match e with
                 | Zneg k => Z.pos m / 2 ^ Z.pos k
                 | _ => Z.pos m * 2 ^ e
                 end in
      Ok (if s then - mag else mag)
  end.

Definition int (x : value) : result Z :=
  match x with
  | VNull => Raise TypeError
  | VBool b => Ok (if b then 1 else 0)
  | VInt n => Ok n
  | VDouble f => int_of_float f
  | VStr s => match int_of_string s with
              | Some n => Ok n
              | None => Raise ValueError
              end
  | VDateTime _ => Raise TypeError
  end.

(** *** [a / b] on ints: true division

    The quotient is the binary64 float nearest to the exact quotient
    (ties to even); it raises when the divisor is zero or the result is
    too large for a float. *)
Definition truediv (a b : Z) : result spec_float :=
  match a, b with
  | _, Z0 => Raise ZeroDivisionError
  | Z0, _ => Ok (S754_zero (b <? 0))
  | _, _ =>
      match SFdiv 53 1024
              (S754_finite (a <? 0) (Z.to_pos (Z.abs a)) 0)
              (S754_finite (b <? 0) (Z.to_pos (Z.abs b)) 0) with
      | S754_infinity _ => Raise OverflowError
      | f => Ok f
      end
  end.

(** [str(n)] for an int: its decimal digits, at most [max_str_digits] of
    them. *)
Definition str_of_int (n : Z) : result string :=
  if Z.abs n <? 10 ^ max_str_digits then Ok (pretty n) else Raise ValueError.

(** *** The [datetime] module

    The calendar arithmetic of CPython's [datetime]: proleptic Gregorian
    ordinals, where day 1 is 0001-01-01. *)

Definition _DAYS_IN_MONTH : list Z :=
  [-1; 31; 28; 31; 30; 31; 30; 31; 31; 30; 31; 30; 31].

Definition _DAYS_BEFORE_MONTH : list Z :=
  [-1; 0; 31; 59; 90; 120; 151; 181; 212; 243; 273; 304; 334].

Definition index (l : list Z) (i : Z) : Z := nth (Z.to_nat i) l 0.

Definition _is_leap (year : Z) : bool :=
  (year mod 4 =? 0) && (negb (year mod 100 =? 0) || (year mod 400 =? 0)).

Definition _days_before_year (year : Z) : Z :=
  let y := year - 1 in
  y * 365 + y / 4 - y / 100 + y / 400.

Definition _days_before_month (year month : Z) : Z :=
  index _DAYS_BEFORE_MONTH month
  + (if (2 <? month) && _is_leap year then 1 else 0).

Definition _ymd2ord (year month day : Z) : Z :=
  _days_before_year year + _days_before_month year month + day.

Definition _DI400Y : Z := Eval cbv in _days_before_year 401.
Definition _DI100Y : Z := Eval cbv in _days_before_year 101.
Definition _DI4Y : Z := Eval cbv in _days_before_year 5.

Definition _ord2ymd (n : Z) : Z * Z * Z :=
  let n := n - 1 in
  let n400 := n / _DI400Y in
  let n := n mod _DI400Y in
  let year := n400 * 400 + 1 in
  let n100 := n / _DI100Y in
  let n := n mod _DI100Y in
  let n4 := n / _DI4Y in
  let n := n mod _DI4Y in
  let n1 := n / 365 in
  let n := n mod 365 in
  let year := year + n100 * 100 + n4 * 4 + n1 in
  if (n1 =? 4) || (n100 =? 4) then (year - 1, 12, 31)
  else
    let leapyear := (n1 =? 3) && (negb (n4 =? 24) || (n100 =? 3)) in
    let month := Z.shiftr (n + 50) 5 in
    let preceding :=
      index _DAYS_BEFORE_MONTH month
      + (if (2 <? month) && leapyear then 1 else 0) in
    if n <? preceding then
      let month := month - 1 in
      let preceding :=
        preceding - (index _DAYS_IN_MONTH month
                     + (if (month =? 2) && leapyear then 1 else 0)) in
      (year, month, n - preceding + 1)
    else (year, month, n - preceding + 1).

Definition MINYEAR : Z := 1.
Definition MAXYEAR : Z := 9999.

(** The ordinal of 1970-01-01. *)
Definition EPOCH_ORDINAL : Z := Eval cbv in _ymd2ord 1970 1 1.

(** The broken-down time of the C library: year, month, day, hour,
    minute, second. *)
Record tm : Type := mkTm {
  tm_year : Z; tm_mon : Z; tm_mday : Z;
  tm_hour : Z; tm_min : Z; tm_sec : Z
}.

(** [localtime_r(t)] on a platform with a 64-bit [time_t] and leap
    seconds left out: the proleptic Gregorian civil time of the local
    zone.  [utcoffset t] is the offset from UTC, in seconds, that the
    zone has at epoch second [t].  The call fails when the year, counted
    from 1900, does not fit a C [int]. *)
Definition localtime (utcoffset : Z → Z) (t : Z) : result tm :=
  let loc := t + utcoffset t in
  let days := loc / 86400 in
  let secs := loc mod 86400 in
  let '(y, m, d) := _ord2ymd (days + EPOCH_ORDINAL) in
  if (- 2 ^ 31 <=? y - 1900) && (y - 1900 <? 2 ^ 31)
  then Ok (mkTm y m d (secs / 3600) (secs mod 3600 / 60) (secs mod 60))
  else Raise OSError.

(** The seconds from 0001-01-01 to a civil time. *)
Definition utc_to_seconds (x : tm) : result Z :=
  if (tm_year x <? MINYEAR) || (MAXYEAR <? tm_year x) then Raise ValueError
  else
    let ordinal := _ymd2ord (tm_year x) (tm_mon x) (tm_mday x) in
    Ok (((ordinal * 24 + tm_hour x) * 60 + tm_min x) * 60 + tm_sec x).

Definition epoch : Z := 719163 * 24 * 60 * 60.

Definition fits_time_t (t : Z) : bool := (- 2 ^ 63 <=? t) && (t <? 2 ^ 63).

(** The local civil time, in seconds from 0001-01-01, of the second [u]
    counted from 0001-01-01 UTC. *)
Definition local (utcoffset : Z → Z) (u : Z) : result Z :=
  let t := u - epoch in
  if fits_time_t t then
    try x := localtime utcoffset t in utc_to_seconds x
  else Raise OverflowError.

Definition max_fold_seconds : Z := 24 * 3600.

(** [datetime.fromtimestamp(t)] for an int [t], without [tz]: the civil
    time of the platform's local zone.  After the conversion it looks a
    day back, and where the zone has moved its clock back in between once
    more, to set [fold]; each of these conversions raises when its year
    is outside [MINYEAR..MAXYEAR]. *)
Definition fromtimestamp (utcoffset : Z → Z) (t : Z) : result datetime :=
  if fits_time_t t then
    try x := localtime utcoffset t in
    try result_seconds := utc_to_seconds x in
    try probe_seconds := local utcoffset (epoch + t - max_fold_seconds) in
    let transition := result_seconds - probe_seconds - max_fold_seconds in
    try fold :=
      (if transition <? 0 then
         try probe_seconds := local utcoffset (epoch + t + transition) in
         Ok (probe_seconds =? result_seconds)
       else Ok false) in
    Ok (mkDatetime (tm_year x) (tm_mon x) (tm_mday x)
          (tm_hour x) (tm_min x) (tm_sec x) fold)
  else Raise OverflowError.

Definition toordinal (d : datetime) : Z :=
  _ymd2ord (dt_year d) (dt_month d) (dt_day d).

(** [d.weekday()]: Monday is 0. *)
Definition weekday (d : datetime) : Z := (toordinal d + 6) mod 7.

Definition _isoweek1monday (year : Z) : Z :=
  let THURSDAY := 3 in
  let firstday := _ymd2ord year 1 1 in
  let firstweekday := (firstday + 6) mod 7 in
  let week1monday := firstday - firstweekday in
  if THURSDAY <? firstweekday then week1monday + 7 else week1monday.

(** [d.isocalendar()]: (ISO year, ISO week number, ISO weekday). *)
Definition isocalendar (d : datetime) : Z * Z * Z :=
  let year := dt_year d in
  let week1monday := _isoweek1monday year in
  let today := toordinal d in
  let week := (today - week1monday) / 7 in
  let day := (today - week1monday) mod 7 in
  if week <? 0 then
    let year := year - 1 in
    let week1monday := _isoweek1monday year in
    ((year, (today - week1monday) / 7 + 1), (today - week1monday) mod 7 + 1)
  else if (52 <=? week) && (_isoweek1monday (year + 1) <=? today) then
    ((year + 1, 1), day + 1)
  else ((year, week + 1), day + 1).

(** [calendar.day_name] (English locale). *)
Definition day_name : list string :=
  ["Monday"; "Tuesday"; "Wednesday"; "Thursday"; "Friday"; "Saturday";
   "Sunday"].

(** [calendar.day_name[i]] for [0 <= i < 7]. *)
Definition day_name_at (i : Z) : string := nth (Z.to_nat i) day_name "".

End Py.

(** ** Spark DataFrames *)

Module Spark.
Import Py.

(** A cell of a DataFrame.  A cell read from storage holds a value.  The
    cell of a column that a chain of Python UDFs fills holds what the
    chain gives on the row in the Python worker: the value the last
    lambda returns, or the exception one of them raises.  Spark runs the
    lambdas when an action needs the column, not when the column is
    defined. *)
Inductive entry : Type :=
  | Data (v : value)
  | Udf (r : result value).

Global Instance entry_eq_dec : EqDecision entry.
Proof. solve_decision. Defined.

Abbreviation row := (list entry).

(** A DataFrame: the column names of its schema, in order, and its rows;
    cell [i] of a row belongs to column [i]. *)
Record DataFrame : Type := mkDataFrame {
  columns : list string;
  rows : list row
}.

Global Instance DataFrame_eq_dec : EqDecision DataFrame.
Proof. solve_decision. Defined.

(** A dataset in storage: column names, rows of values, and the number of
    partition columns, which are the last columns. *)
Record Table : Type := mkTable {
  table_columns : list string;
  table_rows : list (list value);
  partition_columns : nat
}.

Global Instance Table_eq_dec : EqDecision Table.
Proof. solve_decision. Defined.

(** What the job observes of the cluster behind a session:
    - the local time zone of the Python workers: its offset from UTC, in
      seconds, at each epoch second;
    - [toString] of the Java object that a float or a [datetime] returned
      by a UDF is unpickled to (for a [datetime], a
      [java.util.GregorianCalendar] in the zone and locale of the JVM);
    - the outcome of [==] on two values of different SQL types, which the
      engine casts to a common type first;
    - the value that a partition directory gives back when a dataset is
      read: the engine infers it from the text of the directory name,
      together with the other values [col] of the partition column;
    - the way the engine splits the rows of a result into partitions. *)
Record SparkSession : Type := mkSparkSession {
  local_utcoffset : Z → Z;
  java_toString : value → string;
  cast_eq : value → value → bool;
  partition_value : list value → value → value;
  partitioner : list row → list (list row)
}.

Definition cell (r : row) (i : nat) : entry := default (Data VNull) (r !! i).

Fixpoint positions_from (i : nat) (name : string) (cols : list string)
  : list nat :=
  match cols with
  | [] => []
  | c :: cs =>
      if decide (c = name) then i :: positions_from (S i) name cs
      else positions_from (S i) name cs
  end.

(** Resolution of a column name against a schema: the name must denote
    exactly one column. *)
Definition resolve (cols : list string) (name : string) : result nat :=
  match positions_from 0 name cols with
  | [i] => Ok i
  | _ => Raise AnalysisException
  end.

(** [df.name]: attribute access to a column. *)
Definition attr (df : DataFrame) (name : string) : result nat :=
  if decide (name ∈ columns df) then resolve (columns df) name
  else Raise AttributeError.

(** [df[name1, ..., namek]]: projection on the named columns. *)
Definition select (df : DataFrame) (names : list string) : result DataFrame :=
  try idxs := result_mapM (resolve (columns df)) names in
  Ok (mkDataFrame names ((λ r, cell r <$> idxs) <$> rows df)).

(** [df.distinct()]: one copy of every row; rows are compared cell by
    cell, NULL equal to NULL.  The job calls it on columns read from
    storage. *)
Definition distinct (df : DataFrame) : DataFrame :=
  mkDataFrame (columns df) (remove_dups (rows df)).

(** [f(col)] for a Python UDF [f] of one argument.  On a stored column
    the lambda gets the value of the cell.  On a column that a UDF fills,
    Spark chains the two lambdas in the worker: [f] gets the value the
    first lambda returns, as Python holds it. *)
Definition apply_udf (f : value → result value) (c : entry) : entry :=
  match c with
  | Data v => Udf (f v)
  | Udf r => Udf (rbind r f)
  end.

(** [df.withColumn(name, e)]: the new column replaces the columns called
    [name], or is appended when there is none. *)
Definition set_column (cols : list string) (name : string) (v : entry)
    (r : row) : row :=
  if decide (name ∈ cols)
  then (λ '(c, x), if decide (c = name) then v else x) <$> zip cols r
  else r ++ [v].

Definition withColumn (df : DataFrame) (name : string)
    (f : value → result value) (c : nat) : DataFrame :=
  mkDataFrame
    (if decide (name ∈ columns df) then columns df
     else columns df ++ [name])
    ((λ r, set_column (columns df) name (apply_udf f (cell r c)) r)
       <$> rows df).

(** The column of a UDF made by [udf(f)], without a return type, is a
    string column: a [str] is kept, an int becomes its decimal digits, a
    bool [true] or [false], and another object the [toString] of its Java
    counterpart. *)
Definition StringType (spark : SparkSession) (v : value) : value :=
  match v with
  | VNull => VNull
  | VStr s => VStr s
  | VInt n => VStr (pretty n)
  | VBool b => VStr (if b then "true" else "false")
  | _ => VStr (java_toString spark v)
  end.

(** The value of a cell when a job computes it; an exception of a lambda
    fails the job. *)
Definition sql_value (spark : SparkSession) (c : entry) : result value :=
  match c with
  | Data v => Ok v
  | Udf r => StringType spark <$$> r
  end.

(** [==] on doubles: NaN equals NaN, and the two zeros are equal. *)
Definition double_eq (x y : spec_float) : bool :=
  match x, y with
  | S754_nan, S754_nan => true
  | _, _ => SFeqb x y
  end.

(** SQL equality as a join or filter condition: NULL never matches. *)
Definition sql_eq (spark : SparkSession) (a b : value) : bool :=
  match a, b with
  | VNull, _ | _, VNull => false
  | VStr s, VStr t => bool_decide (s = t)
  | VInt m, VInt n => bool_decide (m = n)
  | VBool x, VBool y => bool_decide (x = y)
  | VDouble x, VDouble y => double_eq x y
  | _, _ => cast_eq spark a b
  end.

(** The condition on two key cells.  The keys of the job's join are
    columns read from storage; a key cell whose lambda raises matches
    nothing here. *)
Definition key_eq (spark : SparkSession) (a b : entry) : bool :=
  match sql_value spark a, sql_value spark b with
  | Ok x, Ok y => sql_eq spark x y
  | _, _ => false
  end.

(** [left.join(right, right.cr == left.cl)]: inner join.  The result has
    the columns of [left] followed by the columns of [right]. *)
Definition matches (spark : SparkSession) (right : DataFrame) (cr : nat)
    (v : entry) : list row :=
  filter (λ r, key_eq spark (cell r cr) v = true) (rows right).

Definition join (spark : SparkSession) (left right : DataFrame)
    (cr cl : nat) : DataFrame :=
  mkDataFrame
    (columns left ++ columns right)
    (l ← rows left; (λ r, l ++ r) <$> matches spark right cr (cell l cl)).

(** *** [monotonically_increasing_id]

    A 64-bit integer: the partition index in the upper 31 bits and the
    position of the row within its partition in the lower 33 bits. *)
Definition wrap64 (n : Z) : Z := (n + 2 ^ 63) mod 2 ^ 64 - 2 ^ 63.

Definition partition_ids (p : nat) (part : list row) : list Z :=
  imap (λ j _, wrap64 (Z.shiftl (Z.of_nat p) 33 + Z.of_nat j)) part.

(** [df.select(monotonically_increasing_id().alias(name)).collect()], for
    a DataFrame the engine holds as the partitions [parts].  The
    projection keeps no column of [df], so no UDF runs. *)
Definition collect_ids (parts : list (list row)) : list Z :=
  mjoin (imap partition_ids parts).

(** *** Storage *)

Inductive SaveMode : Type := Append | Overwrite | ErrorIfExists | Ignore.

Definition save_mode (s : string) : result SaveMode :=
  if decide (s = "append") then Ok Append
  else if decide (s = "overwrite") then Ok Overwrite
  else if decide (s = "ignore") then Ok Ignore
  else if decide (s = "error") then Ok ErrorIfExists
  else if decide (s = "errorifexists") then Ok ErrorIfExists
  else if decide (s = "default") then Ok ErrorIfExists
  else Raise IllegalArgumentException.

(** The object store: a dataset per path. *)
Abbreviation store := (gmap string Table).

(** A job step: it may change the store and may raise; what was written
    before an exception stays written. *)
Definition job (A : Type) : Type := store → result A * store.

Definition jret {A} (a : A) : job A := λ st, (Ok a, st).

Definition jbind {A B} (m : job A) (f : A → job B) : job B := λ st,
  match m st with
  | (Ok a, st') => f a st'
  | (Raise e, st') => (Raise e, st')
  end.

Notation "'run' x := m 'in' k" := (jbind m (λ x, k))
  (at level 10, x pattern, m at level 100, k at level 200,
   format "'[v' 'run'  x  :=  m  'in' '/' k ']'").

Definition lift {A} (r : result A) : job A := λ st, (r, st).

(** Column [j] of a stored dataset. *)
Definition table_column (t : Table) (j : nat) : list value :=
  (λ r, default VNull (r !! j)) <$> table_rows t.

(** The cell that a read gives for the value [v] stored in column [j]: a
    data column gives [v] back; a partition column gives what the engine
    infers from its directory names. *)
Definition read_cell (spark : SparkSession) (t : Table) (j : nat) (v : value)
  : entry :=
  if decide (length (table_columns t) - partition_columns t ≤ j)%nat
  then Data (partition_value spark (table_column t j) v)
  else Data v.

Definition frame (spark : SparkSession) (t : Table) : DataFrame :=
  mkDataFrame (table_columns t) (imap (read_cell spark t) <$> table_rows t).

(** [spark.read.json(path)] and [spark.read.parquet(path)]. *)
Definition read (spark : SparkSession) (path : string) : job DataFrame :=
  fun st =>
  match st !! path with
  | Some t => (Ok (frame spark t), st)
  | None => (Raise AnalysisException, st)
  end.

(** The layout of a partitioned dataset: the partition columns come
    last, in the order of [partitionBy]. *)
Definition data_columns (cols partitionBy : list string) : list string :=
  filter (λ c, c ∉ partitionBy) cols.

Definition partitioned (df : DataFrame) (partitionBy : list string)
  : result DataFrame :=
  if decide (NoDup (columns df)) then
    if decide (partitionBy ≠ [] ∧ data_columns (columns df) partitionBy = [])
    then Raise AnalysisException
    else select df (data_columns (columns df) partitionBy ++ partitionBy)
  else Raise AnalysisException.

(** The rows a write job computes: every cell of every row. *)
Definition compute (spark : SparkSession) (df : DataFrame)
  : result (list (list value)) :=
  result_mapM (result_mapM (sql_value spark)) (rows df).

(** The job of a write: it stores the rows when it has computed them
    all, and fails with the error of py4j, leaving [st'], when a lambda
    raises. *)
Definition write_job (spark : SparkSession) (d : DataFrame) (k : nat)
    (old : list (list value)) (path : string) (st st' : store)
  : result () * store :=
  match compute spark d with
  | Ok rs => (Ok (), <[path := mkTable (columns d) (old ++ rs) k]> st)
  | Raise _ => (Raise Py4JJavaError, st')
  end.

(** [df.write.partitionBy(cols).parquet(path, mode)].  The columns are
    checked when the write is planned.  In mode [overwrite] the path is
    cleared before the job runs. *)
Definition write_parquet (spark : SparkSession) (df : DataFrame)
    (path : string) (mode : string) (partitionBy : list string) : job () :=
  fun st =>
  match save_mode mode with
  | Raise e => (Raise e, st)
  | Ok m =>
      match partitioned df partitionBy with
      | Raise e => (Raise e, st)
      | Ok d =>
          let k := length partitionBy in
          match m, st !! path with
          | Overwrite, _ => write_job spark d k [] path st (delete path st)
          | _, None => write_job spark d k [] path st st
          | Ignore, Some _ => (Ok (), st)
          | ErrorIfExists, Some _ => (Raise AnalysisException, st)
          | Append, Some old =>
              if decide (table_columns old = columns d
                         ∧ partition_columns old = k)
              then write_job spark d k (table_rows old) path st st
              else (Raise AnalysisException, st)
          end
      end
  end.

End Spark.

(** ** The job *)

Module Etl.
Import Py Spark.

(** [os.path.join(a, b)] (POSIX). *)
Definition ends_with_slash (a : string) : bool :=
  match String.rev a with
  | String "/" _ => true
  | _ => false
  end.

Definition os_path_join (a b : string) : string :=
  match b with
  | String "/" _ => b
  | _ =>
      if decide (a = "") then b
      else if ends_with_slash a then a +:+ b
      else a +:+ "/" +:+ b
  end.

Definition create_spark_session (cluster : SparkSession) : SparkSession :=
  cluster.

Definition songs_columns : list string :=
  ["song_id"; "title"; "artist_id"; "year"; "duration"].

Definition artists_columns : list string :=
  ["artist_id"; "artist_name"; "artist_location"; "artist_latitude";
   "artist_longitude"].

(** The two tables [process_song_data] extracts from the catalog. *)
Definition songs_table (df : DataFrame) : result DataFrame :=
  distinct <$$> select df songs_columns.

Definition artists_table (df : DataFrame) : result DataFrame :=
  distinct <$$> select df artists_columns.

Definition process_song_data (spark : SparkSession)
    (input_data output_data : string) : job () :=
  let song_data := os_path_join input_data "song_data/*/*/*/*.json" in
  run df := read spark song_data in
  run songs := lift (songs_table df) in
  run _ := write_parquet spark songs (output_data +:+ "songs_table.parquet")
             "overwrite" ["year"; "artist_id"] in
  run artists := lift (artists_table df) in
  write_parquet spark artists (output_data +:+ "artists_table.parquet")
    "overwrite" [].

(** The UDF lambdas of [process_log_data]. *)
Definition get_timestamp (x : value) : result value :=
  try n := int x in
  try q := truediv n 1000 in
  try s := int_of_float q in
  try t := str_of_int s in
  Ok (VStr t).

Definition get_datetime (spark : SparkSession) (x : value) : result value :=
  try n := int x in
  try q := truediv n 1000 in
  try s := int_of_float q in
  try d := fromtimestamp (local_utcoffset spark) s in
  Ok (VDateTime d).

(** A method or attribute of a [datetime]; any other value has none. *)
Definition on_datetime (f : datetime → value) (x : value) : result value :=
  match x with
  | VDateTime d => Ok (f d)
  | _ => Raise AttributeError
  end.

Definition get_week : value → result value :=
  on_datetime (λ x, VStr (day_name_at (weekday x))).
Definition get_weekday : value → result value :=
  on_datetime (λ x, VInt (isocalendar x).1.2).
Definition get_hour : value → result value :=
  on_datetime (λ x, VInt (dt_hour x)).
Definition get_day : value → result value :=
  on_datetime (λ x, VInt (dt_day x)).
Definition get_year : value → result value :=
  on_datetime (λ x, VInt (dt_year x)).
Definition get_month : value → result value :=
  on_datetime (λ x, VInt (dt_month x)).

(** [df.withColumn(name, f(df.c))]. *)
Definition with_udf_column (df : DataFrame) (name : string)
    (f : value → result value) (c : string) : result DataFrame :=
  try i := attr df c in Ok (withColumn df name f i).

(** Lines 84-102: the derived columns of the event log. *)
Definition with_time_columns (spark : SparkSession) (df : DataFrame)
  : result DataFrame :=
  try df := with_udf_column df "timestamp" get_timestamp "ts" in
  try df := with_udf_column df "start_time" (get_datetime spark) "ts" in
  try df := with_udf_column df "hour" get_hour "start_time" in
  try df := with_udf_column df "day" get_day "start_time" in
  try df := with_udf_column df "week" get_week "start_time" in
  try df := with_udf_column df "month" get_month "start_time" in
  try df := with_udf_column df "year" get_year "start_time" in
  with_udf_column df "weekday" get_weekday "start_time".

Definition time_columns : list string :=
  ["start_time"; "hour"; "day"; "week"; "month"; "year"; "weekday"].

Definition time_table (df : DataFrame) : result DataFrame :=
  select df time_columns.

Definition songplays_columns : list string :=
  ["start_time"; "userId"; "level"; "song_id"; "artist_id"; "sessionId";
   "location"; "userAgent"].

(** Lines 114-115: [df.join(song_df, song_df.title == df.song)] and the
    projection on the columns of the songplays table. *)
Definition join_songs (spark : SparkSession) (df song_df : DataFrame)
  : result DataFrame :=
  try title := attr song_df "title" in
  try song := attr df "song" in
  Ok (join spark df song_df title song).

Definition songplays_table (spark : SparkSession) (df song_df : DataFrame)
  : result DataFrame :=
  try df := join_songs spark df song_df in
  select df songplays_columns.

(** Line 116: the ids are computed on a DataFrame of their own, collected
    and dropped; [songplays_table] itself is not changed. *)
Definition songplay_ids (spark : SparkSession) (songplays : DataFrame)
  : list Z :=
  collect_ids (partitioner spark (rows songplays)).

Definition users_columns : list string :=
  ["userId"; "firstName"; "lastName"; "gender"; "level"].

Definition users_table (df : DataFrame) : result DataFrame :=
  distinct <$$> select df users_columns.

(** Lines 69-115 of [process_log_data]: everything up to the songplays
    table, which it returns. *)
Definition assemble_songplays (spark : SparkSession)
    (input_data output_data : string) : job DataFrame :=
  let log_data := os_path_join input_data "log_data/*/*/*.json" in
  run df := read spark log_data in
  run _ := lift (select df ["ts"; "userId"; "level"; "sessionId"; "location";
                            "userAgent"]) in
  run users := lift (users_table df) in
  run _ := write_parquet spark users (output_data +:+ "users_table.parquet")
             "overwrite" [] in
  run df := lift (with_time_columns spark df) in
  run times := lift (time_table df) in
  run _ := write_parquet spark times (output_data +:+ "time_table.parquet")
             "overwrite" ["year"; "month"] in
  run song_df := read spark (output_data +:+ "songs_table.parquet") in
  lift (songplays_table spark df song_df).

(** Lines 116-119: the ids are collected and dropped, then the table is
    written. *)
Definition process_log_data (spark : SparkSession)
    (input_data output_data : string) : job () :=
  run songplays := assemble_songplays spark input_data output_data in
  let _ := songplay_ids spark songplays in
  write_parquet spark songplays (output_data +:+ "songplays_table.parquet")
    "overwrite" ["year"; "month"].

Definition input_root : string := "s3a://udacity-dend/".
Definition output_root : string := "s3a://u-de-project4/".

Definition main (cluster : SparkSession) : job () :=
  let spark := create_spark_session cluster in
  let input_data := input_root in
  let output_data := output_root in
  run _ := process_song_data spark input_data output_data in
  process_log_data spark input_data output_data.

End Etl.

(** * The vocabulary of the properties *)

Import Py Spark Etl.

(** The paths [main] reads and writes. *)
Definition song_data_path : string :=
  Eval vm_compute in os_path_join input_root "song_data/*/*/*/*.json".
Definition log_data_path : string :=
  Eval vm_compute in os_path_join input_root "log_data/*/*/*.json".
Definition songs_path : string :=
  Eval vm_compute in output_root +:+ "songs_table.parquet".
Definition artists_path : string :=
  Eval vm_compute in output_root +:+ "artists_table.parquet".
Definition users_path : string :=
  Eval vm_compute in output_root +:+ "users_table.parquet".
Definition time_path : string :=
  Eval vm_compute in output_root +:+ "time_table.parquet".
Definition songplays_path : string :=
  Eval vm_compute in output_root +:+ "songplays_table.parquet".

(** A DataFrame is a table: every row has one cell per column. *)
Definition wf (df : DataFrame) : Prop :=
  Forall (λ r : row, length r = length (columns df)) (rows df).

(** The same for a stored dataset, whose partition columns are among its
    columns. *)
Definition wf_table (t : Table) : Prop :=
  Forall (λ r : list value, length r = length (table_columns t))
         (table_rows t)
  ∧ (partition_columns t ≤ length (table_columns t))%nat.

Definition wf_store (st : store) : Prop := map_Forall (λ _ t, wf_table t) st.

(** The cell of [r] under the column called [name]. *)
Definition field (df : DataFrame) (name : string) (r : row) : result entry :=
  try i := resolve (columns df) name in Ok (cell r i).

(** The value a job computes for the cell of [r] under [name]. *)
Definition computed (spark : SparkSession) (df : DataFrame) (name : string)
    (r : row) : result value :=
  try c := field df name r in sql_value spark c.

(** The value of the stored row [r] under the column called [name]. *)
Definition stored_field (t : Table) (name : string) (r : list value)
  : result value :=
  try i := resolve (table_columns t) name in Ok (default VNull (r !! i)).

(** The values stored under the column called [name]. *)
Definition stored_column (t : Table) (name : string) : list value :=
  match resolve (table_columns t) name with
  | Ok j => table_column t j
  | Raise _ => []
  end.

(** Every column of [r] that is called [n] holds [v]. *)
Definition named (cols : list string) (r : row) (n : string) (v : entry)
  : Prop :=
  ∀ i, cols !! i = Some n → cell r i = v.

(** The schema after [withColumn(name, _)]. *)
Definition with_name (cols : list string) (name : string) : list string :=
  if decide (name ∈ cols) then cols else cols ++ [name].

(** The columns lines 84-102 add to the event log. *)
Definition derived_columns : list string :=
  ["timestamp"; "start_time"; "hour"; "day"; "week"; "month"; "year";
   "weekday"].

(** The cell of [start_time] on a row whose [ts] cell is [c]. *)
Definition instant (spark : SparkSession) (c : entry) : entry :=
  apply_udf (get_datetime spark) c.

(** What lines 84-102 leave in a row whose timestamp cell is [c]. *)
Definition time_row (spark : SparkSession) (cols : list string) (r : row)
    (c : entry) : Prop :=
  named cols r "start_time" (instant spark c) ∧
  named cols r "hour" (apply_udf get_hour (instant spark c)) ∧
  named cols r "day" (apply_udf get_day (instant spark c)) ∧
  named cols r "week" (apply_udf get_week (instant spark c)) ∧
  named cols r "month" (apply_udf get_month (instant spark c)) ∧
  named cols r "year" (apply_udf get_year (instant spark c)) ∧
  named cols r "weekday" (apply_udf get_weekday (instant spark c)).

(** The row of the time table for a row whose timestamp cell is [c],
    under [time_columns]. *)
Definition time_cells (spark : SparkSession) (c : entry) : row :=
  [instant spark c;
   apply_udf get_hour (instant spark c);
   apply_udf get_day (instant spark c);
   apply_udf get_week (instant spark c);
   apply_udf get_month (instant spark c);
   apply_udf get_year (instant spark c);
   apply_udf get_weekday (instant spark c)].

(** The values that a job computes for the row of the time table of the
    instant [d], under [time_columns]: seven strings. *)
Definition time_values (spark : SparkSession) (d : datetime) : list value :=
  [VStr (java_toString spark (VDateTime d));
   VStr (pretty (dt_hour d)); VStr (pretty (dt_day d));
   VStr (day_name_at (weekday d));
   VStr (pretty (dt_month d)); VStr (pretty (dt_year d));
   VStr (pretty (isocalendar d).1.2)].

(** A cell of a text column: a string or NULL. *)
Definition text (c : entry) : Prop :=
  c = Data VNull ∨ ∃ s, c = Data (VStr s).

(** The column called [name] is a text column of [df]. *)
Definition text_column (df : DataFrame) (name : string) : Prop :=
  ∀ r i, r ∈ rows df → resolve (columns df) name = Ok i → text (cell r i).

(** The rows of [df] that hold the string [x] in column [i]. *)
Definition rows_with (df : DataFrame) (i : nat) (x : string) : list row :=
  filter (λ r, cell r i = Data (VStr x)) (rows df).

(** The fact rows one event row [e] gives: one per row of [song_df] whose
    title equals the song of [e]. *)
Definition facts_of_event (spark : SparkSession) (song_df : DataFrame)
    (title song : nat) (idxs : list nat) (e : row) : list row :=
  (λ s, cell (e ++ s) <$> idxs) <$> matches spark song_df title (cell e song).

(** The songs table as stored: partition columns last. *)
Definition stored_songs_columns : list string :=
  ["song_id"; "title"; "duration"; "year"; "artist_id"].

(** The time table as stored. *)
Definition stored_time_columns : list string :=
  ["start_time"; "hour"; "day"; "week"; "weekday"; "year"; "month"].

(** The value of a cell read from storage. *)
Definition value_of (c : entry) : value :=
  match c with
  | Data v => v
  | Udf _ => VNull
  end.

(** A DataFrame all of whose cells hold values: no UDF fills a column. *)
Definition plain (df : DataFrame) : Prop :=
  Forall (Forall (λ c, c = Data (value_of c))) (rows df).

(** The rows of values of a plain DataFrame, and the dataset a write of
    it stores, with [k] partition columns. *)
Definition values (df : DataFrame) : list (list value) :=
  (λ r : row, value_of <$> r) <$> rows df.

Definition as_stored (df : DataFrame) (k : nat) : Table :=
  mkTable (columns df) (values df) k.

(** The layouts of the partitioned tables of the job: the songs table
    by year and artist, the time table by year and month. *)
Definition songs_layout (songs : DataFrame) : DataFrame :=
  mkDataFrame stored_songs_columns
    ((λ r, cell r <$> [0; 1; 4; 3; 2]%nat) <$> rows songs).

Definition time_layout (times : DataFrame) : DataFrame :=
  mkDataFrame stored_time_columns
    ((λ r, cell r <$> [0; 1; 2; 3; 6; 5; 4]%nat) <$> rows times).

(** The catalog [df] with the rows [dups] appended. *)
Definition with_appended (df : DataFrame) (dups : list row) : DataFrame :=
  mkDataFrame (columns df) (rows df ++ dups).

(** The local seconds since the epoch at epoch second [s]. *)
Definition local_seconds (spark : SparkSession) (s : Z) : Z :=
  s + local_utcoffset spark s.

(** The year of the local civil time of epoch second [s]. *)
Definition local_year (spark : SparkSession) (s : Z) : Z :=
  (_ord2ymd (local_seconds spark s / 86400 + EPOCH_ORDINAL)).1.1.

(** The seconds [fromtimestamp] converts for the second [s]: [s], the
    second a day before and, where the zone has moved its clock back in
    between, the second as much before [s]. *)
Definition probes (spark : SparkSession) (s : Z) : list Z :=
  let transition :=
    local_utcoffset spark s - local_utcoffset spark (s - max_fold_seconds) in
  s :: (s - max_fold_seconds)
    :: (if transition <? 0 then [s + transition] else []).

(** A second that [fromtimestamp] can convert: it fits [time_t], and its
    local year is a year of [datetime]. *)
Definition convertible (spark : SparkSession) (t : Z) : Prop :=
  - 2 ^ 63 ≤ t < 2 ^ 63 ∧ MINYEAR ≤ local_year spark t ≤ MAXYEAR.

(** The three cases in which the claim expects the derivation to fail. *)
Definition missing (x : value) : Prop := x = VNull.
Definition non_numeric (x : value) : Prop := x ≠ VNull ∧ raises (int x).
Definition negative (x : value) : Prop := ∃ n, int x = Ok n ∧ n < 0.

(** The month and the day of the month that [_ord2ymd] gives to day [n],
    counted from 0, of a year: the estimate [(n + 50) >> 5] of the month
    and its correction. *)
Definition month_day (n : Z) (leapyear : bool) : Z * Z :=
  let month := Z.shiftr (n + 50) 5 in
  let preceding :=
    index _DAYS_BEFORE_MONTH month
    + (if (2 <? month) && leapyear then 1 else 0) in
  if n <? preceding then
    (month - 1,
     n - (preceding - (index _DAYS_IN_MONTH (month - 1)
                       + (if (month - 1 =? 2) && leapyear then 1 else 0))) + 1)
  else (month, n - preceding + 1).

(** [month_day] is right on day [k] of a year: the month and the day are
    in range and come back to [k] through [_DAYS_BEFORE_MONTH]. *)
Definition month_day_ok (leapyear : bool) (k : nat) : bool :=
  let n := Z.of_nat k in
  let '(m, d) := month_day n leapyear in
  (1 <=? m) && (m <=? 12) && (1 <=? d) && (d <=? 31) &&
  (index _DAYS_BEFORE_MONTH m + (if (2 <? m) && leapyear then 1 else 0) + d
   =? n + 1).

(** The ordinal of the Thursday of the week, Monday to Sunday, of the day
    of ordinal [today]. *)
Definition thursday_of (today : Z) : Z := today - (today + 6) mod 7 + 3.

(** A job step that leaves every path outside [paths] as it found it,
    whatever its outcome. *)
Definition touches_only {A} (paths : list string) (j : job A) : Prop :=
  ∀ st p, p ∉ paths → (j st).2 !! p = st !! p.

(** The names of [names] that the schema [cols] resolves. *)
Definition resolved (cols names : list string) : Prop :=
  Forall (λ n, ∃ i, resolve cols n = Ok i) names.

(** The columns line 75 projects the event log on. *)
Definition line75_columns : list string :=
  ["ts"; "userId"; "level"; "sessionId"; "location"; "userAgent"].

(** The row [r] is the projection of the row [c] of [df] on [names]: cell
    by cell, [r] holds what [c] holds under the name. *)
Definition projection (df : DataFrame) (names : list string) (c r : row)
  : Prop :=
  Forall2 (λ n v, field df n c = Ok v) names r.

(** ** A small run

    A catalog with the same track twice, a second track that shares its
    title with a third, and an event log of three plays. *)

Module Sample.

(** The text of a [java.util.GregorianCalendar] made from the fields of a
    [datetime], in a JVM with the fixed zone [zone] and a US locale. *)
Definition quote : string := String (ascii_of_nat 34) "".

Definition calendar_text (zone : string) (offset : Z) (d : datetime)
  : string :=
  "java.util.GregorianCalendar[time=?,areFieldsSet=false,"
  +:+ "areAllFieldsSet=false,lenient=true,"
  +:+ "zone=sun.util.calendar.ZoneInfo[id=" +:+ quote +:+ zone +:+ quote
  +:+ ",offset=" +:+ pretty (offset * 1000)
  +:+ ",dstSavings=0,useDaylight=false,transitions=0,lastRule=null],"
  +:+ "firstDayOfWeek=1,minimalDaysInFirstWeek=1,ERA=?,YEAR="
  +:+ pretty (dt_year d) +:+ ",MONTH=" +:+ pretty (dt_month d - 1)
  +:+ ",WEEK_OF_YEAR=?,WEEK_OF_MONTH=?,DAY_OF_MONTH=" +:+ pretty (dt_day d)
  +:+ ",DAY_OF_YEAR=?,DAY_OF_WEEK=?,DAY_OF_WEEK_IN_MONTH=?,AM_PM="
  +:+ (if dt_hour d <? 12 then "0" else "1")
  +:+ ",HOUR=" +:+ pretty (dt_hour d mod 12)
  +:+ ",HOUR_OF_DAY=" +:+ pretty (dt_hour d)
  +:+ ",MINUTE=" +:+ pretty (dt_minute d)
  +:+ ",SECOND=" +:+ pretty (dt_second d)
  +:+ ",MILLISECOND=0,ZONE_OFFSET=?,DST_OFFSET=?]".

Definition to_text (zone : string) (offset : Z) (v : value) : string :=
  match v with
  | VDateTime d => calendar_text zone offset d
  | VDouble S754_nan => "NaN"
  | _ => ""
  end.

(** An engine that takes a string key for a number when it is the
    decimal text of the number. *)
Definition decimal_eq (a b : value) : bool :=
  match a, b with
  | VInt n, VStr s | VStr s, VInt n => bool_decide (s = pretty n)
  | _, _ => false
  end.

(** The number a directory name stands for: an int is written with its
    digits; a string stands for a number when it is made of at most nine
    ASCII digits. *)
Definition number_of (v : value) : option Z :=
  match v with
  | VInt n => Some n
  | VStr s =>
      if bool_decide (s ≠ "") && (String.length s <=? 9)%nat
         && forallb (λ a, (48 <=? byte_of a) && (byte_of a <=? 57))
                    (list_ascii_of_string s)
      then int_of_string s else None
  | _ => None
  end.

(** NULL and the empty string are written to the default partition, which
    is read back as NULL. *)
Definition default_partition (v : value) : bool :=
  bool_decide (v = VNull) || bool_decide (v = VStr "").

(** Partition type inference on such names: when every directory of a
    column, the default partition apart, stands for a number, the column
    is read back as numbers; otherwise as text. *)
Definition infer (col : list value) (v : value) : value :=
  if default_partition v then VNull
  else if forallb (λ x, default_partition x
                        || bool_decide (is_Some (number_of x))) col
  then match number_of v with Some n => VInt n | None => VNull end
  else match v with VInt n => VStr (pretty n) | _ => v end.

Definition utc : SparkSession :=
  mkSparkSession (λ _, 0) (to_text "UTC" 0) decimal_eq infer (λ l, [l]).
Definition cet : SparkSession :=
  mkSparkSession (λ _, 3600) (to_text "GMT+01:00" 3600) decimal_eq infer
    (λ l, [l]).

(** The float 210.0. *)
Definition duration : value := VDouble (S754_finite false 7388718138654720 (-45)).

Definition catalog_columns : list string :=
  ["artist_id"; "artist_latitude"; "artist_location"; "artist_longitude";
   "artist_name"; "duration"; "num_songs"; "song_id"; "title"; "year"].

Definition track (artist name song title : string) (year : Z) : list value :=
  [VStr artist; VNull; VStr "X"; VNull; VStr name; duration; VInt 1;
   VStr song; VStr title; VInt year].

Definition catalog : Table :=
  mkTable catalog_columns
    [track "P1" "Band" "T1" "Song A" 2000;
     track "P1" "Band" "T1" "Song A" 2000;
     track "P2" "Duo" "T2" "Song B" 2001;
     track "P3" "Trio" "T3" "Song B" 2002] 0.

Definition log_columns : list string :=
  ["artist"; "firstName"; "gender"; "lastName"; "level"; "location"; "page";
   "sessionId"; "song"; "ts"; "userAgent"; "userId"].

Definition play (song : value) (ts : Z) : list value :=
  [VStr "Band"; VStr "Ann"; VStr "F"; VStr "Lee"; VStr "free"; VStr "NYC";
   VStr "NextSong"; VInt 5; song; VInt ts; VStr "UA"; VStr "7"].

Definition events : Table :=
  mkTable log_columns
    [play (VStr "Song A") 1000000000000;
     play (VStr "Song B") 1000000001000;
     play (VStr "Song Z") 1000000002000] 0.

Definition one_event : Table :=
  mkTable log_columns [play (VStr "Song A") 1000000000000] 0.

(** The two inputs as DataFrames. *)
Definition catalog_df : DataFrame := frame utc catalog.
Definition events_df : DataFrame := frame utc events.
Definition one_event_df : DataFrame := frame utc one_event.

Definition store0 : store :=
  <[log_data_path := events]> (<[song_data_path := catalog]> ∅).

Definition store1 : store :=
  (process_song_data utc input_root output_root store0).2.

(** A first run on a smaller catalog, then a run on [catalog]. *)
Definition small_catalog : Table :=
  mkTable catalog_columns [track "P9" "Solo" "T9" "Song Q" 1999] 0.

Definition first_run : store :=
  (process_song_data utc input_root output_root
     (<[song_data_path := small_catalog]> ∅)).2.

Definition refreshed : store :=
  (process_song_data utc input_root output_root
     (<[song_data_path := catalog]> first_run)).2.

Definition store2 : store :=
  (assemble_songplays utc input_root output_root store1).2.

Definition run_facts : DataFrame :=
  match (assemble_songplays utc input_root output_root store1).1 with
  | Ok df => df
  | Raise _ => mkDataFrame [] []
  end.

Definition songs : DataFrame :=
  match songs_table catalog_df with
  | Ok df => df
  | Raise _ => mkDataFrame [] []
  end.

Definition artists : DataFrame :=
  match artists_table catalog_df with
  | Ok df => df
  | Raise _ => mkDataFrame [] []
  end.

(** The songs table in storage, and as it is read back. *)
Definition stored_songs : Table :=
  mkTable ["song_id"; "title"; "duration"; "year"; "artist_id"]
    [[VStr "T1"; VStr "Song A"; duration; VInt 2000; VStr "P1"];
     [VStr "T2"; VStr "Song B"; duration; VInt 2001; VStr "P2"];
     [VStr "T3"; VStr "Song B"; duration; VInt 2002; VStr "P3"]] 2.

Definition song_df : DataFrame := frame utc stored_songs.

(** The event log with its derived columns, in the zone [utc]. *)
Definition enriched : DataFrame :=
  match with_time_columns utc events_df with
  | Ok df => df
  | Raise _ => mkDataFrame [] []
  end.

Definition one_enriched : DataFrame :=
  match with_time_columns utc one_event_df with
  | Ok df => df
  | Raise _ => mkDataFrame [] []
  end.

Definition one_fact : DataFrame :=
  match songplays_table utc one_enriched song_df with
  | Ok df => df
  | Raise _ => mkDataFrame [] []
  end.

Definition times : DataFrame :=
  match time_table enriched with
  | Ok df => df
  | Raise _ => mkDataFrame [] []
  end.

Definition facts : DataFrame :=
  match songplays_table utc enriched song_df with
  | Ok df => df
  | Raise _ => mkDataFrame [] []
  end.

(** A catalog whose artist ids are made of digits. *)
Definition numbered_catalog : Table :=
  mkTable catalog_columns [track "0123" "Band" "T1" "Song A" 2000] 0.

Definition numbered_store : store :=
  <[log_data_path := one_event]> (<[song_data_path := numbered_catalog]> ∅).

Definition numbered_store1 : store :=
  (process_song_data utc input_root output_root numbered_store).2.

Definition numbered_facts : DataFrame :=
  match (assemble_songplays utc input_root output_root numbered_store1).1 with
  | Ok df => df
  | Raise _ => mkDataFrame [] []
  end.

Definition numbered_artists : Table :=
  default (mkTable [] [] 0) (numbered_store1 !! artists_path).

End Sample.
(** * Properties *)

(** ** The error monad *)

Lemma rbind_Ok {A B} (m : result A) (f : A → result B) b :
  rbind m f = Ok b → ∃ a, m = Ok a ∧ f a = Ok b.
Proof. destruct m as [a|e]; simpl; [eauto | discriminate]. Qed.

Lemma rmap_Ok {A B} (f : A → B) (m : result A) b :
  f <$$> m = Ok b → ∃ a, m = Ok a ∧ b = f a.
Proof. destruct m as [a|e]; simpl; [|discriminate]. intros [= <-]. eauto. Qed.

Lemma result_mapM_Ok {A B} (f : A → result B) l bs :
  result_mapM f l = Ok bs → Forall2 (λ a b, f a = Ok b) l bs.
Proof.
  revert bs. induction l as [|a l IH]; simpl; intros bs H.
  - injection H as <-. constructor.
  - apply rbind_Ok in H as (b & Hb & H).
    apply rbind_Ok in H as (bs' & Hbs & [= <-]).
    constructor; auto.
Qed.

(** Inversion of a successful chain of [try]s. *)
Ltac inv_try H :=
  repeat match type of H with
  | rbind _ _ = Ok _ =>
      let a := fresh "a" in let Ha := fresh "H" a in
      apply rbind_Ok in H as (a & Ha & H)
  | _ <$$> _ = Ok _ =>
      let a := fresh "a" in let Ha := fresh "H" a in
      apply rmap_Ok in H as (a & Ha & H)
  end.

(** ** Python arithmetic: the quotient of a timestamp by 1000 *)

Lemma digits2_pos_bounds p :
  2 ^ (Z.pos (digits2_pos p) - 1) ≤ Z.pos p < 2 ^ Z.pos (digits2_pos p).
Proof.
  induction p as [p IH|p IH|]; simpl digits2_pos.
  - rewrite Pos2Z.inj_succ.
    replace (Z.succ (Z.pos (digits2_pos p)) - 1) with (Z.succ (Z.pos (digits2_pos p) - 1)) by lia.
    rewrite !Z.pow_succ_r by lia. lia.
  - rewrite Pos2Z.inj_succ.
    replace (Z.succ (Z.pos (digits2_pos p)) - 1) with (Z.succ (Z.pos (digits2_pos p) - 1)) by lia.
    rewrite !Z.pow_succ_r by lia. lia.
  - simpl. lia.
Qed.

Lemma Zdigits2_unique z k :
  0 < k → 2 ^ (k - 1) ≤ z < 2 ^ k → Zdigits2 z = k.
Proof.
  intros Hk [Hlo Hhi].
  assert (0 < z) by (pose proof (Z.pow_pos_nonneg 2 (k - 1)); lia).
  destruct z as [|p|p]; try lia. simpl.
  pose proof (digits2_pos_bounds p) as [Hl Hh].
  set (d := Z.pos (digits2_pos p)) in *.
  destruct (Z.lt_trichotomy d k) as [Hlt|[Heq|Hgt]]; [|done|].
  - assert (2 ^ d ≤ 2 ^ (k - 1)) by (apply Z.pow_le_mono_r; lia). lia.
  - assert (2 ^ k ≤ 2 ^ (d - 1)) by (apply Z.pow_le_mono_r; lia). lia.
Qed.

Lemma shr_1_m m r s :
  0 ≤ m → shr_m (shr_1 (Build_shr_record m r s)) = m / 2.
Proof.
  intros Hm. destruct m as [|[p|p|]|p]; simpl; try lia; try reflexivity.
  - rewrite Pos2Z.inj_xI. apply Z.div_unique with 1; lia.
  - rewrite Pos2Z.inj_xO. apply Z.div_unique with 0; lia.
Qed.

Lemma round_nearest_even_bounds m l :
  m ≤ round_nearest_even m l ≤ m + 1.
Proof. destruct l as [|[]]; simpl; try lia. destruct (Z.even m); lia. Qed.

Lemma loc_of_shr_record_of_loc m l : 
  loc_of_shr_record (shr_record_of_loc m l) = l.
Proof. by destruct l as [|[]]. Qed.

(** Rounding a quotient mantissa of 53 or 54 bits: at most one bit is
    shifted out, and the mantissa kept is the truncated one or its
    successor. *)
Lemma binary_round_aux_53 sx q e l :
  2 ^ 52 ≤ q < 2 ^ 54 - 2 → -1074 ≤ e ≤ 900 →
  ∃ m j, binary_round_aux 53 1024 sx q e l = S754_finite sx m (e + j) ∧
    (j = 0 ∨ j = 1) ∧ q / 2 ^ j ≤ Z.pos m ≤ q / 2 ^ j + 1.
Proof.
  intros Hq He.
  assert (Hd : Zdigits2 q = 53 ∨ Zdigits2 q = 54).
  { destruct (Z.lt_ge_cases q (2 ^ 53)).
    - left. apply Zdigits2_unique; lia.
    - right. apply Zdigits2_unique; lia. }
  unfold binary_round_aux, shr_fexp.
  destruct Hd as [Hd|Hd]; rewrite Hd.
  - (* no bit to shift out *)
    replace (fexp 53 1024 (53 + e) - e) with 0 by (unfold fexp, emin; lia).
    cbn [shr]. rewrite loc_of_shr_record_of_loc.
    replace (shr_m (shr_record_of_loc q l)) with q by (by destruct l as [|[]]).
    pose proof (round_nearest_even_bounds q l) as Hr.
    set (m1 := round_nearest_even q l) in *.
    destruct (Z.lt_ge_cases m1 (2 ^ 53)) as [Hlt|Hge].
    + rewrite (Zdigits2_unique m1 53) by lia.
      replace (fexp 53 1024 (53 + e) - e) with 0 by (unfold fexp, emin; lia).
      cbn [shr shr_record_of_loc shr_m].
      destruct m1 as [|m|m] eqn:E; try lia.
      replace (e <=? 1024 - 53) with true by (symmetry; apply Z.leb_le; lia).
      exists m, 0. rewrite Z.add_0_r. split; [done|]. split; [by left|].
      rewrite Z.pow_0_r, Z.div_1_r. lia.
    + assert (Zdigits2 q = 53) as Hd' by done.
      assert (q < 2 ^ 53).
      { destruct (Z.lt_ge_cases q (2 ^ 53)); [done|].
        rewrite (Zdigits2_unique q 54) in Hd' by lia. lia. }
      assert (m1 = 2 ^ 53) as -> by lia.
      assert (q = 2 ^ 53 - 1) as Hq' by lia.
      rewrite (Zdigits2_unique (2 ^ 53) 54) by lia.
      replace (fexp 53 1024 (54 + e) - e) with 1 by (unfold fexp, emin; lia).
      change (2 ^ 53) with 9007199254740992.
      cbn [shr SpecFloat.iter_pos shr_1 shr_record_of_loc shr_m].
      replace (e + 1 <=? 1024 - 53) with true by (symmetry; apply Z.leb_le; lia).
      exists 4503599627370496%positive, 1. split; [done|]. split; [by right|].
      rewrite Hq'. change ((2 ^ 53 - 1) / 2 ^ 1) with 4503599627370495. lia.
  - (* one bit to shift out *)
    assert (2 ^ 53 ≤ q).
    { destruct (Z.lt_ge_cases q (2 ^ 53)); [|done].
      rewrite (Zdigits2_unique q 53) in Hd by lia. lia. }
    replace (fexp 53 1024 (54 + e) - e) with 1 by (unfold fexp, emin; lia).
    cbn [shr SpecFloat.iter_pos].
    set (mrs := shr_1 (shr_record_of_loc q l)).
    assert (Hm : shr_m mrs = q / 2).
    { unfold mrs. destruct l as [|[]]; cbn [shr_record_of_loc];
        apply shr_1_m; lia. }
    rewrite Hm.
    pose proof (round_nearest_even_bounds (q / 2) (loc_of_shr_record mrs)) as Hr.
    set (m1 := round_nearest_even (q / 2) (loc_of_shr_record mrs)) in *.
    assert (2 ^ 52 ≤ q / 2 < 2 ^ 53 - 1).
    { split.
      - apply Z.div_le_lower_bound; lia.
      - apply Z.div_lt_upper_bound; lia. }
    rewrite (Zdigits2_unique m1 53) by lia.
    replace (fexp 53 1024 (53 + (e + 1)) - (e + 1)) with 0
      by (unfold fexp, emin; lia).
    cbn [shr shr_record_of_loc shr_m].
    destruct m1 as [|m|m] eqn:E; try lia.
    replace (e + 1 <=? 1024 - 53) with true by (symmetry; apply Z.leb_le; lia).
    exists m, 1. split; [done|]. split; [by right|].
    rewrite Z.pow_1_r. lia.
Qed.

Lemma quot_round0 x P m :
  0 ≤ x → 1000 < P → x * P / 1000 ≤ m ≤ x * P / 1000 + 1 →
  m / P = x / 1000.
Proof.
  intros Hx HP Hm.
  pose proof (Z.div_mod x 1000 ltac:(lia)) as Ex.
  pose proof (Z.mod_pos_bound x 1000 ltac:(lia)) as Bx.
  pose proof (Z.div_mod (x * P) 1000 ltac:(lia)) as Eq.
  pose proof (Z.mod_pos_bound (x * P) 1000 ltac:(lia)) as Bq.
  set (y := x / 1000) in *. set (f := x mod 1000) in *.
  set (q := x * P / 1000) in *. set (r := (x * P) mod 1000) in *.
  assert (0 ≤ f * P ≤ 999 * P) by nia.
  assert (x * P = 1000 * (y * P) + f * P) by (rewrite Ex; ring).
  symmetry. apply Z.div_unique with (m - y * P); [|ring].
  left. lia.
Qed.

Lemma quot_round1 x P m :
  0 ≤ x → 1000 < P →
  x * (2 * P) / 1000 / 2 ≤ m ≤ x * (2 * P) / 1000 / 2 + 1 →
  m / P = x / 1000.
Proof.
  intros Hx HP Hm.
  pose proof (Z.div_mod x 1000 ltac:(lia)) as Ex.
  pose proof (Z.mod_pos_bound x 1000 ltac:(lia)) as Bx.
  pose proof (Z.div_mod (x * (2 * P)) 1000 ltac:(lia)) as Eq.
  pose proof (Z.mod_pos_bound (x * (2 * P)) 1000 ltac:(lia)) as Bq.
  set (y := x / 1000) in *. set (f := x mod 1000) in *.
  set (q := x * (2 * P) / 1000) in *. set (r := (x * (2 * P)) mod 1000) in *.
  pose proof (Z.div_mod q 2 ltac:(lia)) as Eh.
  pose proof (Z.mod_pos_bound q 2 ltac:(lia)) as Bh.
  set (h := q / 2) in *.
  assert (0 ≤ f * P ≤ 999 * P) by nia.
  assert (x * (2 * P) = 2000 * (y * P) + 2 * (f * P)) by (rewrite Ex; ring).
  symmetry. apply Z.div_unique with (m - y * P); [|ring].
  left. lia.
Qed.

Lemma div_eucl_div_mod a b : Z.div_eucl a b = (a / b, a mod b).
Proof. unfold Z.div, Z.modulo. by destruct (Z.div_eucl a b). Qed.

Lemma SFdiv_core_1000 p :
  Z.pos (digits2_pos p) ≤ 52 →
  let d := Z.pos (digits2_pos p) in
  SFdiv_core_binary 53 1024 (Z.pos p) 0 1000 0
  = (Z.pos p * 2 ^ (63 - d) / 1000, d - 63,
     new_location 1000 ((Z.pos p * 2 ^ (63 - d)) mod 1000)).
Proof.
  intros Hd d. unfold SFdiv_core_binary. cbn [Zdigits2].
  change (Z.pos (digits2_pos 1000)) with 10. fold d.
  replace (Z.min (fexp 53 1024 (d + 0 - (10 + 0))) (0 - 0)) with (d - 63)
    by (unfold fexp, emin; lia).
  replace (0 - 0 - (d - 63)) with (63 - d) by lia.
  destruct (63 - d) as [|s|s] eqn:Es; try lia.
  rewrite Z.shiftl_mul_pow2 by lia.
  by rewrite div_eucl_div_mod.
Qed.

(** [int(n / 1000)] truncates toward zero: below 2^52 the rounding of the
    float quotient never reaches the next integer. *)
Lemma truediv_1000_trunc n :
  Z.abs n < 2 ^ 52 →
  (try q := truediv n 1000 in int_of_float q) = Ok (Z.quot n 1000).
Proof.
  intros Hn.
  assert (Hpos : ∀ p sx, Z.pos p < 2 ^ 52 →
    (try q := match SFdiv 53 1024 (S754_finite sx p 0)
                      (S754_finite false 1000 0) with
              | S754_infinity _ => Raise OverflowError
              | f => Ok f
              end in int_of_float q)
    = Ok (if sx then - (Z.pos p / 1000) else Z.pos p / 1000)).
  { clear. intros p sx Hp.
    pose proof (digits2_pos_bounds p) as [Hlo Hhi].
    set (d := Z.pos (digits2_pos p)) in *.
    assert (Hd : 1 ≤ d ≤ 52).
    { split; [lia|]. destruct (Z.le_gt_cases d 52); [done|].
      assert (2 ^ 52 ≤ 2 ^ (d - 1)) by (apply Z.pow_le_mono_r; lia). lia. }
    unfold SFdiv. rewrite SFdiv_core_1000 by (fold d; lia). fold d.
    set (k := 63 - d).
    assert (Hk : 2 ^ (d - 1) * 2 ^ k = 2 ^ 62).
    { rewrite <- Z.pow_add_r by lia. f_equal. lia. }
    assert (Hk' : 2 ^ d * 2 ^ k = 2 ^ 63).
    { rewrite <- Z.pow_add_r by lia. f_equal. lia. }
    assert (HP : 0 < 2 ^ k) by (apply Z.pow_pos_nonneg; lia).
    set (q := Z.pos p * 2 ^ k / 1000).
    assert (Hq : 2 ^ 52 ≤ q < 2 ^ 54 - 2).
    { unfold q. split.
      - apply Z.div_le_lower_bound; [lia|]. nia.
      - apply Z.div_lt_upper_bound; [lia|]. nia. }
    destruct (binary_round_aux_53 (xorb sx false) q (d - 63)
                (new_location 1000 ((Z.pos p * 2 ^ k) mod 1000)) Hq)
      as (m & j & -> & Hj & Hm); [lia|].
    cbn [rbind int_of_float].
    assert (Hmag : match d - 63 + j with
                   | Z.neg k' => Z.pos m / 2 ^ Z.pos k'
                   | _ => Z.pos m * 2 ^ (d - 63 + j)
                   end = Z.pos p / 1000).
    { destruct (d - 63 + j) as [|e|e] eqn:Ee; try lia.
      assert (Z.pos e = k - j) as -> by lia.
      destruct Hj as [-> | ->].
      - rewrite Z.sub_0_r. rewrite Z.pow_0_r, Z.div_1_r in Hm.
        apply quot_round0; [lia| |done].
        assert (2 ^ 11 ≤ 2 ^ k) by (apply Z.pow_le_mono_r; lia). lia.
      - rewrite Z.pow_1_r in Hm.
        assert (2 ^ k = 2 * 2 ^ (k - 1)) as Ek.
        { rewrite <- Z.pow_succ_r by lia. f_equal. lia. }
        unfold q in Hm. rewrite Ek in Hm.
        apply quot_round1; [lia| |done].
        assert (2 ^ 10 ≤ 2 ^ (k - 1)) by (apply Z.pow_le_mono_r; lia). lia. }
    rewrite Hmag. by destruct sx. }
  destruct n as [|p|p].
  - done.
  - cbn [truediv Z.abs Z.to_pos]. change (Z.pos p <? 0) with false.
    change (1000 <? 0) with false. rewrite Hpos by lia.
    by rewrite Z.quot_div_nonneg by lia.
  - cbn [truediv Z.abs Z.to_pos]. change (Z.neg p <? 0) with true.
    change (1000 <? 0) with false. rewrite Hpos by lia.
    f_equal. change (Z.neg p) with (- Z.pos p).
    rewrite Z.quot_opp_l by lia. by rewrite Z.quot_div_nonneg by lia.
Qed.

(** ** Schemas and rows *)

Lemma positions_from_spec i n cols j :
  j ∈ positions_from i n cols ↔ (i ≤ j)%nat ∧ cols !! (j - i)%nat = Some n.
Proof.
  revert i. induction cols as [|c cs IH]; intros i; simpl.
  - split; [by intros ?%elem_of_nil | by intros [_ ?]].
  - destruct (decide (c = n)) as [->|Hne].
    + rewrite elem_of_cons, IH. split.
      * intros [->|[Hle Hj]].
        -- split; [lia|]. by replace (i - i)%nat with 0%nat by lia.
        -- split; [lia|]. by replace (j - i)%nat with (S (j - S i)) by lia.
      * intros [Hle Hj]. destruct (decide (j = i)) as [->|]; [by left|right].
        split; [lia|]. by replace (j - i)%nat with (S (j - S i)) in Hj by lia.
    + rewrite IH. split.
      * intros [Hle Hj]. split; [lia|].
        by replace (j - i)%nat with (S (j - S i)) by lia.
      * intros [Hle Hj]. destruct (decide (j = i)) as [->|].
        -- replace (i - i)%nat with 0%nat in Hj by lia. simpl in Hj. congruence.
        -- split; [lia|].
           by replace (j - i)%nat with (S (j - S i)) in Hj by lia.
Qed.

(** A resolved name denotes the one column that carries it. *)
Lemma resolve_Ok cols n i :
  resolve cols n = Ok i →
  cols !! i = Some n ∧ ∀ j, cols !! j = Some n → j = i.
Proof.
  unfold resolve. intros H.
  destruct (positions_from 0 n cols) as [|k [|? ?]] eqn:E; try discriminate.
  injection H as ->.
  assert (Hk : ∀ j, j ∈ positions_from 0 n cols ↔ j = i).
  { intros j. rewrite E. by rewrite list_elem_of_singleton. }
  split.
  - pose proof (proj2 (Hk i) eq_refl) as Hi.
    apply positions_from_spec in Hi as [_ Hi].
    by replace (i - 0)%nat with i in Hi by lia.
  - intros j Hj. apply Hk, positions_from_spec. split; [lia|].
    by replace (j - 0)%nat with j by lia.
Qed.

Lemma resolve_named cols n i (r : row) :
  resolve cols n = Ok i → named cols r n (cell r i).
Proof. intros [_ Hu]%resolve_Ok j Hj. by rewrite (Hu j Hj). Qed.

Lemma attr_Ok df n i : attr df n = Ok i → resolve (columns df) n = Ok i.
Proof. unfold attr. by case_decide. Qed.

(** *** [select] *)

Lemma select_Ok df names t :
  select df names = Ok t →
  columns t = names ∧
  ∃ idxs, Forall2 (λ n i, resolve (columns df) n = Ok i) names idxs ∧
          rows t = (λ r, cell r <$> idxs) <$> rows df.
Proof.
  unfold select. intros H. inv_try H. injection H as <-.
  split; [done|]. exists a. split; [|done]. by apply result_mapM_Ok.
Qed.

Lemma select_wf df names t : select df names = Ok t → wf t.
Proof.
  intros (Hc & idxs & Hi & Hr)%select_Ok. unfold wf. rewrite Hr, Hc.
  apply Forall_fmap, Forall_true. intros r. simpl.
  rewrite length_fmap. symmetry. by eapply Forall2_length.
Qed.

Lemma distinct_wf df : wf df → wf (distinct df).
Proof.
  unfold wf, distinct. simpl. rewrite !Forall_forall.
  intros H r Hr. apply H. by apply elem_of_remove_dups.
Qed.

(** *** [withColumn] *)

Lemma elem_of_with_name cols name : name ∈ with_name cols name.
Proof.
  unfold with_name. case_decide; [done|]. apply elem_of_app. right.
  by apply list_elem_of_singleton.
Qed.

Lemma with_name_mono cols name n : n ∈ cols → n ∈ with_name cols name.
Proof.
  unfold with_name. case_decide; [done|]. intros ?. apply elem_of_app. by left.
Qed.

Lemma with_name_other cols name n i :
  n ≠ name → with_name cols name !! i = Some n → cols !! i = Some n.
Proof.
  unfold with_name. case_decide; [done|]. intros Hne Hi.
  apply lookup_app_Some in Hi as [Hi|[_ Hi]]; [done|].
  apply list_lookup_singleton_Some in Hi as [_ ?]. congruence.
Qed.

Lemma set_column_length cols name v (r : row) :
  length r = length cols →
  length (set_column cols name v r) = length (with_name cols name).
Proof.
  intros Hl. unfold set_column, with_name. case_decide.
  - rewrite length_fmap, length_zip_with. lia.
  - rewrite !length_app. simpl. lia.
Qed.

Lemma cell_set_column_in cols name v (r : row) i c :
  length r = length cols → name ∈ cols → cols !! i = Some c →
  cell (set_column cols name v r) i = if decide (c = name) then v else cell r i.
Proof.
  intros Hl Hin Hc. unfold set_column, cell. rewrite decide_True by done.
  destruct (lookup_lt_is_Some_2 r i) as [x Hx].
  { rewrite Hl. by eapply lookup_lt_Some. }
  rewrite list_lookup_fmap, lookup_zip_with, Hc, Hx. simpl. done.
Qed.

Lemma set_column_named cols name v (r : row) :
  length r = length cols →
  named (with_name cols name) (set_column cols name v r) name v.
Proof.
  intros Hl i Hi. unfold with_name in Hi.
  destruct (decide (name ∈ cols)) as [Hin|Hout].
  - rewrite (cell_set_column_in _ _ _ _ _ name) by done.
    by rewrite decide_True.
  - apply lookup_app_Some in Hi as [Hi|[Hge Hi]].
    { destruct Hout. by eapply list_elem_of_lookup_2. }
    apply list_lookup_singleton_Some in Hi as [Hi _].
    unfold set_column, cell. rewrite decide_False by done.
    rewrite lookup_app_r by lia.
    replace (i - length r)%nat with 0%nat by lia. done.
Qed.

Lemma set_column_other cols name v (r : row) n u :
  length r = length cols → n ≠ name →
  named cols r n u →
  named (with_name cols name) (set_column cols name v r) n u.
Proof.
  intros Hl Hne Hn i Hi. pose proof (with_name_other _ _ _ _ Hne Hi) as Hc.
  rewrite <- (Hn i Hc).
  destruct (decide (name ∈ cols)) as [Hin|Hout].
  - rewrite (cell_set_column_in _ _ _ _ _ n) by done.
    by rewrite decide_False.
  - unfold set_column, cell. rewrite decide_False by done.
    rewrite lookup_app_l; [done|]. rewrite Hl. by eapply lookup_lt_Some.
Qed.

Lemma withColumn_rows df name f c :
  columns (withColumn df name f c) = with_name (columns df) name ∧
  rows (withColumn df name f c)
  = (λ r, set_column (columns df) name (apply_udf f (cell r c)) r) <$> rows df.
Proof. done. Qed.

Lemma with_udf_column_Ok df name f c df' :
  with_udf_column df name f c = Ok df' →
  ∃ i, resolve (columns df) c = Ok i ∧
       columns df' = with_name (columns df) name ∧
       rows df'
       = (λ r, set_column (columns df) name (apply_udf f (cell r i)) r)
           <$> rows df.
Proof.
  unfold with_udf_column. intros H. inv_try H. injection H as <-.
  apply attr_Ok in Ha. eauto.
Qed.

(** One [withColumn] step, row by row: the row at position [k] of the
    result comes from the row at position [k] of the argument. *)
Lemma with_udf_column_row df name f c df' :
  wf df → with_udf_column df name f c = Ok df' →
  wf df' ∧
  columns df' = with_name (columns df) name ∧
  length (rows df') = length (rows df) ∧
  ∃ i, resolve (columns df) c = Ok i ∧
  ∀ k r', rows df' !! k = Some r' →
    ∃ r, rows df !! k = Some r ∧
      named (columns df') r' name (apply_udf f (cell r i)) ∧
      ∀ n u, n ≠ name → named (columns df) r n u → named (columns df') r' n u.
Proof.
  intros Hwf (i & Hi & Hc & Hr)%with_udf_column_Ok.
  unfold wf in *. rewrite Hr, Hc. split; [|split; [done|split]].
  - apply Forall_fmap. eapply Forall_impl; [exact Hwf|]. simpl.
    intros r Hl. by apply set_column_length.
  - by rewrite length_fmap.
  - exists i. split; [done|]. intros k r' Hk.
    rewrite list_lookup_fmap in Hk.
    destruct (rows df !! k) as [r|] eqn:Er; [|discriminate].
    injection Hk as <-. exists r. split; [done|].
    assert (Hl : length r = length (columns df)).
    { eapply (Forall_lookup_1 _ _ _ _ Hwf Er). }
    split.
    + by apply set_column_named.
    + intros n u Hne Hn. by apply set_column_other.
Qed.

(** [named] facts carried through later [withColumn] steps. *)
Ltac chase :=
  first
    [ eassumption
    | match goal with
      | O : ∀ n u, n ≠ _ → named _ _ n u → named ?c ?r n u
        |- named ?c ?r _ _ => apply O; [discriminate | chase]
      end ].

Lemma on_datetime_Ok f x v :
  on_datetime f x = Ok v → ∃ d, x = VDateTime d ∧ v = f d.
Proof. destruct x; simpl; try discriminate. intros [= <-]. eauto. Qed.

Lemma get_datetime_Ok spark x v :
  get_datetime spark x = Ok v → ∃ d, v = VDateTime d.
Proof. unfold get_datetime. intros H. inv_try H. injection H as <-. eauto. Qed.

Lemma with_time_columns_row spark df df' :
  wf df → with_time_columns spark df = Ok df' →
  wf df' ∧
  length (rows df') = length (rows df) ∧
  (∀ n, n ∈ columns df → n ∈ columns df') ∧
  (∀ n, n ∈ derived_columns → n ∈ columns df') ∧
  ∃ i, resolve (columns df) "ts" = Ok i ∧
  ∀ k r', rows df' !! k = Some r' →
    ∃ r, rows df !! k = Some r ∧
      time_row spark (columns df') r' (cell r i) ∧
      ∀ n u, n ∉ derived_columns →
        named (columns df) r n u → named (columns df') r' n u.
Proof.
  intros Hwf0 H. unfold with_time_columns in H. inv_try H.
  rename H into Ha6.
  destruct (with_udf_column_row _ _ _ _ _ Hwf0 Ha) as (Hwf1 & Hc1 & Hl1 & i0 & Hi0 & S1).
  destruct (with_udf_column_row _ _ _ _ _ Hwf1 Ha0) as (Hwf2 & Hc2 & Hl2 & i1 & Hi1 & S2).
  destruct (with_udf_column_row _ _ _ _ _ Hwf2 Ha1) as (Hwf3 & Hc3 & Hl3 & i2 & Hi2 & S3).
  destruct (with_udf_column_row _ _ _ _ _ Hwf3 Ha2) as (Hwf4 & Hc4 & Hl4 & i3 & Hi3 & S4).
  destruct (with_udf_column_row _ _ _ _ _ Hwf4 Ha3) as (Hwf5 & Hc5 & Hl5 & i4 & Hi4 & S5).
  destruct (with_udf_column_row _ _ _ _ _ Hwf5 Ha4) as (Hwf6 & Hc6 & Hl6 & i5 & Hi5 & S6).
  destruct (with_udf_column_row _ _ _ _ _ Hwf6 Ha5) as (Hwf7 & Hc7 & Hl7 & i6 & Hi6 & S7).
  destruct (with_udf_column_row _ _ _ _ _ Hwf7 Ha6) as (Hwf8 & Hc8 & Hl8 & i7 & Hi7 & S8).
  split; [done|]. split; [congruence|]. split; [|split].
  - intros n Hn. rewrite Hc8, Hc7, Hc6, Hc5, Hc4, Hc3, Hc2, Hc1.
    by do 8 apply with_name_mono.
  - intros n Hn. rewrite Hc8, Hc7, Hc6, Hc5, Hc4, Hc3, Hc2, Hc1.
    unfold derived_columns in Hn.
    repeat (apply elem_of_cons in Hn as [->|Hn];
            [repeat first [apply elem_of_with_name | apply with_name_mono]|]).
    by apply elem_of_nil in Hn.
  - exists i0. split; [done|]. intros k r8 Hr8.
    destruct (S8 _ _ Hr8) as (r7 & Hr7 & N8 & O8).
    destruct (S7 _ _ Hr7) as (r6 & Hr6 & N7 & O7).
    destruct (S6 _ _ Hr6) as (r5 & Hr5 & N6 & O6).
    destruct (S5 _ _ Hr5) as (r4 & Hr4 & N5 & O5).
    destruct (S4 _ _ Hr4) as (r3 & Hr3 & N4 & O4).
    destruct (S3 _ _ Hr3) as (r2 & Hr2 & N3 & O3).
    destruct (S2 _ _ Hr2) as (r1 & Hr1 & N2 & O2).
    destruct (S1 _ _ Hr1) as (r0 & Hr0 & N1 & O1).
    exists r0. split; [done|].
    (* the timestamp cell read by the second step is the original one *)
    assert (Hts : cell r1 i1 = cell r0 i0).
    { apply (O1 "ts" (cell r0 i0)); [done|by apply resolve_named|].
      by apply resolve_Ok in Hi1 as [? _]. }
    rewrite Hts in N2. fold (instant spark (cell r0 i0)) in N2.
    assert (ST : ∀ cols (r : row) i,
               named cols r "start_time" (instant spark (cell r0 i0)) →
               resolve cols "start_time" = Ok i →
               cell r i = instant spark (cell r0 i0)).
    { intros cols r i Hn [Hi _]%resolve_Ok. by apply Hn. }
    rewrite (ST (columns a0) r2 i2) in N3 by chase.
    rewrite (ST (columns a1) r3 i3) in N4 by chase.
    rewrite (ST (columns a2) r4 i4) in N5 by chase.
    rewrite (ST (columns a3) r5 i5) in N6 by chase.
    rewrite (ST (columns a4) r6 i6) in N7 by chase.
    rewrite (ST (columns a5) r7 i7) in N8 by chase.
    split.
    + repeat split; chase.
    + intros n u Hn Hu. unfold derived_columns in Hn.
      apply O8; [set_solver|]. apply O7; [set_solver|].
      apply O6; [set_solver|]. apply O5; [set_solver|].
      apply O4; [set_solver|]. apply O3; [set_solver|].
      apply O2; [set_solver|]. apply O1; [set_solver|]. done.
Qed.

(** *** [join] and the songplays table *)

Lemma resolve_app_l a b n i :
  resolve (a ++ b) n = Ok i → n ∈ a → (i < length a)%nat ∧ a !! i = Some n.
Proof.
  intros [_ Hu]%resolve_Ok (j & Hj)%list_elem_of_lookup_1.
  rewrite <- (Hu j) by by apply lookup_app_l_Some.
  split; [by eapply lookup_lt_Some | done].
Qed.

Lemma resolve_app_r a b n i :
  resolve (a ++ b) n = Ok i → n ∈ b →
  ∃ j, i = (length a + j)%nat ∧ b !! j = Some n.
Proof.
  intros [_ Hu]%resolve_Ok (j & Hj)%list_elem_of_lookup_1.
  exists j. split; [|done]. symmetry. apply Hu.
  rewrite lookup_app_r by lia. by replace (length a + j - length a)%nat with j by lia.
Qed.

Lemma cell_app_l (l s : row) i : (i < length l)%nat → cell (l ++ s) i = cell l i.
Proof. intros. unfold cell. by rewrite lookup_app_l. Qed.

Lemma cell_app_r (l s : row) j : cell (l ++ s) (length l + j) = cell s j.
Proof.
  unfold cell. rewrite lookup_app_r by lia.
  by replace (length l + j - length l)%nat with j by lia.
Qed.

Lemma songplays_table_Ok spark df song_df facts :
  songplays_table spark df song_df = Ok facts →
  ∃ title song idxs,
    resolve (columns song_df) "title" = Ok title ∧
    resolve (columns df) "song" = Ok song ∧
    Forall2 (λ n i, resolve (columns df ++ columns song_df) n = Ok i)
            songplays_columns idxs ∧
    columns facts = songplays_columns ∧
    rows facts = rows df ≫= facts_of_event spark song_df title song idxs.
Proof.
  unfold songplays_table. intros H. inv_try H.
  unfold join_songs in Ha. inv_try Ha. injection Ha as <-.
  apply attr_Ok in Ha0, Ha1.
  apply select_Ok in H as (Hc & idxs & Hi & Hr). simpl in *.
  exists a0, a1, idxs. repeat split; try done.
  rewrite Hr. clear. induction (rows df) as [|l ls IH]; [done|].
  rewrite !bind_cons, fmap_app, IH. f_equal.
  unfold facts_of_event. by rewrite <- list_fmap_compose.
Qed.



(** A string is none of the strings of a literal list. *)
Ltac not_in_list :=
  let H := fresh in
  intros H;
  repeat (apply elem_of_cons in H as [H|H]; [discriminate H|]);
  by apply elem_of_nil in H.

(** Lookups through a stack of inserts. *)
Ltac map_lookup :=
  repeat first [rewrite lookup_insert_eq | rewrite lookup_insert_ne by done].

(** ** Job steps *)

Lemma jbind_Ok {A B} (m : job A) (f : A → job B) st b st' :
  jbind m f st = (Ok b, st') →
  ∃ a st1, m st = (Ok a, st1) ∧ f a st1 = (Ok b, st').
Proof.
  unfold jbind. destruct (m st) as [[a|e] st1]; [eauto|discriminate].
Qed.

Lemma lift_Ok {A} (r : result A) st a st' :
  lift r st = (Ok a, st') → r = Ok a ∧ st' = st.
Proof. unfold lift. by intros [= -> ->]. Qed.

Lemma read_Ok spark path st df st' :
  read spark path st = (Ok df, st') →
  ∃ t, st !! path = Some t ∧ df = frame spark t ∧ st' = st.
Proof.
  unfold read. destruct (st !! path) as [t|]; [|discriminate].
  intros [= <- <-]. eauto.
Qed.

Lemma write_overwrite spark df path partitionBy st :
  write_parquet spark df path "overwrite" partitionBy st =
  match partitioned df partitionBy with
  | Ok d => write_job spark d (length partitionBy) [] path st (delete path st)
  | Raise e => (Raise e, st)
  end.
Proof.
  unfold write_parquet.
  change (save_mode "overwrite") with (Ok Overwrite).
  by destruct (partitioned df partitionBy).
Qed.

Lemma write_overwrite_Ok spark df path partitionBy st u st' :
  write_parquet spark df path "overwrite" partitionBy st = (Ok u, st') →
  ∃ d rs, partitioned df partitionBy = Ok d ∧ compute spark d = Ok rs ∧
          st' = <[path := mkTable (columns d) rs (length partitionBy)]> st.
Proof.
  rewrite write_overwrite. destruct (partitioned df partitionBy) as [d|e];
    [|discriminate].
  unfold write_job. destruct (compute spark d) as [rs|e0] eqn:E; [|discriminate].
  intros [= <-]. by exists d, rs.
Qed.

(** Inversion of a successful chain of job steps. *)
Ltac inv_run H :=
  repeat match type of H with
  | jbind _ _ _ = (Ok _, _) =>
      let a := fresh "a" in let st := fresh "st" in let Ha := fresh "H" a in
      apply jbind_Ok in H as (a & st & Ha & H)
  end.

(** *** DataFrames read from storage *)

Lemma frame_plain spark t : plain (frame spark t).
Proof.
  unfold plain, frame. simpl. apply Forall_fmap, Forall_true. intros r. simpl.
  apply Forall_lookup. intros j c Hc. apply list_lookup_imap_Some in Hc
    as (v & _ & ->). unfold read_cell. by case_decide.
Qed.

Lemma frame_wf spark t : wf_table t → wf (frame spark t).
Proof.
  intros [Hwf _]. unfold wf, frame. simpl. apply Forall_fmap.
  eapply Forall_impl; [exact Hwf|]. simpl. intros r Hr.
  by rewrite length_imap.
Qed.

Lemma cell_plain (r : row) i :
  Forall (λ c, c = Data (value_of c)) r → cell r i = Data (value_of (cell r i)).
Proof.
  intros Hr. unfold cell. destruct (r !! i) as [c|] eqn:E; [|done]. simpl.
  by apply (Forall_lookup_1 _ _ _ _ Hr E).
Qed.

Lemma select_plain df names t : plain df → select df names = Ok t → plain t.
Proof.
  intros Hp (_ & idxs & _ & Hr)%select_Ok. unfold plain in *. rewrite Hr.
  apply Forall_fmap. eapply Forall_impl; [exact Hp|]. simpl. intros r Hr'.
  apply Forall_fmap, Forall_true. intros i. simpl. by apply cell_plain.
Qed.

Lemma distinct_plain df : plain df → plain (distinct df).
Proof.
  unfold plain, distinct. simpl. rewrite !Forall_forall.
  intros H r Hr. apply H. by apply elem_of_remove_dups.
Qed.

Lemma distinct_select_plain df names t :
  plain df → distinct <$$> select df names = Ok t → plain t.
Proof.
  intros Hp H. inv_try H. subst t. apply distinct_plain.
  by eapply select_plain.
Qed.

Lemma mapM_sql_value_plain spark (r : row) :
  Forall (λ c, c = Data (value_of c)) r →
  result_mapM (sql_value spark) r = Ok (value_of <$> r).
Proof.
  induction 1 as [|c r Hc _ IH]; [done|]. simpl. rewrite Hc at 1. simpl.
  by rewrite IH.
Qed.

(** A write job on a plain DataFrame runs no lambda: it stores the
    values. *)
Lemma compute_plain spark df : plain df → compute spark df = Ok (values df).
Proof.
  unfold plain, compute, values. induction 1 as [|r rs Hr _ IH]; [done|].
  simpl. rewrite (mapM_sql_value_plain _ _ Hr). simpl. by rewrite IH.
Qed.

(** *** The time table *)

(** The time table has one row per event row, in the same order; the row
    holds, under [time_columns], the cells [time_cells] of the timestamp
    cell of the event. *)
Lemma time_table_rows spark df df' t :
  wf df → with_time_columns spark df = Ok df' → time_table df' = Ok t →
  columns t = time_columns ∧
  ∃ i, resolve (columns df) "ts" = Ok i ∧
       rows t = (λ r, time_cells spark (cell r i)) <$> rows df.
Proof.
  intros Hwf (Hwf' & Hlen & _ & _ & i & Hi & Hrow)%with_time_columns_row;
    [|done].
  intros (Hc & idxs & Hidx & Hr)%select_Ok.
  split; [done|]. exists i. split; [done|].
  rewrite Hr. apply list_eq_same_length with (length (rows df));
    [by rewrite length_fmap|by rewrite length_fmap|].
  intros k tr tr' _ Hk Hk'.
  rewrite list_lookup_fmap in Hk, Hk'.
  destruct (rows df' !! k) as [r'|] eqn:Er'; [|discriminate].
  destruct (rows df !! k) as [r|] eqn:Er; [|discriminate].
  injection Hk as <-. injection Hk' as <-.
  destruct (Hrow _ _ Er') as (r0 & Hr0 & (N1 & N2 & N3 & N4 & N5 & N6 & N7) & _).
  assert (r0 = r) as -> by congruence.
  unfold time_columns in Hidx.
  repeat match goal with
  | H : Forall2 _ (_ :: _) _ |- _ =>
      apply Forall2_cons_inv_l in H as (? & ? & [? _]%resolve_Ok & H & ->)
  | H : Forall2 _ [] _ |- _ => apply Forall2_nil_inv_l in H as ->
  end.
  unfold time_cells. simpl.
  repeat f_equal; match goal with N : named _ _ _ ?v |- _ = ?v => by apply N end.
Qed.

(** The values a job computes for the cells of a row of the time table:
    the seven strings of the instant, when the lambda of line 88 returns
    one; the job fails when that lambda raises. *)
Lemma time_cells_Ok spark x d :
  get_datetime spark x = Ok (VDateTime d) →
  result_mapM (sql_value spark) (time_cells spark (Data x))
  = Ok (time_values spark d).
Proof. intros H. unfold time_cells, instant. simpl. rewrite H. reflexivity. Qed.

Lemma time_cells_Raise spark x e :
  get_datetime spark x = Raise e →
  result_mapM (sql_value spark) (time_cells spark (Data x)) = Raise e.
Proof. intros H. unfold time_cells, instant. simpl. rewrite H. reflexivity. Qed.

(** ** The catalog stage, step by step *)

Lemma partitioned_songs songs :
  columns songs = songs_columns →
  partitioned songs ["year"; "artist_id"] = Ok (songs_layout songs).
Proof. unfold partitioned, select. intros ->. reflexivity. Qed.

Lemma partitioned_five names t :
  names = artists_columns ∨ names = users_columns →
  columns t = names → wf t → partitioned t [] = Ok t.
Proof.
  intros Hn Hc Hwf. unfold partitioned, select. rewrite Hc.
  assert (Hid : (λ r : row, cell r <$> [0; 1; 2; 3; 4]%nat) <$> rows t
                = rows t).
  { rewrite <- (list_fmap_id (rows t)) at 2. apply Forall_fmap_ext.
    eapply Forall_impl; [exact Hwf|]. simpl. intros r Hr. rewrite Hc in Hr.
    assert (length r = 5%nat) as Hl by (by destruct Hn as [-> | ->]).
    destruct r as [|? [|? [|? [|? [|? [|? ?]]]]]]; try discriminate. done. }
  destruct t as [cols rs]. simpl in *. subst cols.
  destruct Hn as [-> | ->]; simpl; by rewrite Hid.
Qed.

Lemma songs_table_columns df t :
  songs_table df = Ok t → columns t = songs_columns.
Proof.
  unfold songs_table. intros H. inv_try H. subst.
  by apply select_Ok in Ha as [? _].
Qed.

Lemma artists_table_columns df t :
  artists_table df = Ok t → columns t = artists_columns.
Proof.
  unfold artists_table. intros H. inv_try H. subst.
  by apply select_Ok in Ha as [? _].
Qed.

Lemma distinct_select_wf df names t :
  distinct <$$> select df names = Ok t → wf t.
Proof.
  intros H. inv_try H. subst t. apply distinct_wf. by eapply select_wf.
Qed.

Lemma songs_layout_plain songs : plain songs → plain (songs_layout songs).
Proof.
  intros Hp. unfold plain, songs_layout in *. simpl.
  apply Forall_fmap. eapply Forall_impl; [exact Hp|]. simpl. intros r Hr.
  repeat constructor; by apply cell_plain.
Qed.

(** The write of a table of five plain columns without partition
    columns stores the table. *)
Lemma write_five spark names t path st :
  names = artists_columns ∨ names = users_columns →
  columns t = names → wf t → plain t →
  write_parquet spark t path "overwrite" [] st
  = (Ok (), <[path := as_stored t 0]> st).
Proof.
  intros Hn Hc Hwf Hp. rewrite write_overwrite.
  rewrite (partitioned_five names) by done.
  unfold write_job. by rewrite compute_plain.
Qed.

Lemma write_songs spark songs path st :
  columns songs = songs_columns → plain songs →
  write_parquet spark songs path "overwrite" ["year"; "artist_id"] st
  = (Ok (), <[path := as_stored (songs_layout songs) 2]> st).
Proof.
  intros Hc Hp. rewrite write_overwrite, (partitioned_songs _ Hc).
  unfold write_job. by rewrite compute_plain by by apply songs_layout_plain.
Qed.

(** [process_song_data] on a store that holds the catalog [cat]. *)
Lemma process_song_data_run spark st cat :
  st !! song_data_path = Some cat →
  process_song_data spark input_root output_root st =
  match songs_table (frame spark cat) with
  | Raise e => (Raise e, st)
  | Ok songs =>
      let st1 := <[songs_path := as_stored (songs_layout songs) 2]> st in
      match artists_table (frame spark cat) with
      | Raise e => (Raise e, st1)
      | Ok artists => (Ok (), <[artists_path := as_stored artists 0]> st1)
      end
  end.
Proof.
  intros Hdf. unfold process_song_data, jbind, read, lift.
  change (os_path_join input_root "song_data/*/*/*/*.json")
    with song_data_path.
  change (output_root +:+ "songs_table.parquet") with songs_path.
  change (output_root +:+ "artists_table.parquet") with artists_path.
  rewrite Hdf. destruct (songs_table (frame spark cat)) as [songs|] eqn:Hs;
    [|done].
  rewrite write_songs;
    [|by eapply songs_table_columns
     |by eapply distinct_select_plain; [apply frame_plain|]].
  cbv zeta.
  destruct (artists_table (frame spark cat)) as [artists|] eqn:Ha; [|done].
  rewrite (write_five _ artists_columns); try done.
  - by left.
  - by eapply artists_table_columns.
  - by eapply distinct_select_wf.
  - by eapply distinct_select_plain; [apply frame_plain|].
Qed.

Lemma process_song_data_Ok spark st st1 :
  process_song_data spark input_root output_root st = (Ok (), st1) →
  ∃ cat songs artists,
    st !! song_data_path = Some cat ∧
    songs_table (frame spark cat) = Ok songs ∧
    artists_table (frame spark cat) = Ok artists ∧
    st1 = <[artists_path := as_stored artists 0]>
          (<[songs_path := as_stored (songs_layout songs) 2]> st).
Proof.
  intros H.
  destruct (st !! song_data_path) as [cat|] eqn:Hdf.
  - rewrite (process_song_data_run _ _ _ Hdf) in H.
    destruct (songs_table (frame spark cat)) as [songs|] eqn:Hs;
      [|discriminate].
    cbv zeta in H.
    destruct (artists_table (frame spark cat)) as [artists|] eqn:Ha;
      [|discriminate].
    injection H as <-. by exists cat, songs, artists.
  - unfold process_song_data, jbind, read in H.
    change (os_path_join input_root "song_data/*/*/*/*.json")
      with song_data_path in H.
    by rewrite Hdf in H.
Qed.

(** ** The log stage, step by step *)

Lemma users_table_columns df t :
  users_table df = Ok t → columns t = users_columns.
Proof.
  unfold users_table. intros H. inv_try H. subst.
  by apply select_Ok in Ha as [? _].
Qed.

Lemma partitioned_times times :
  columns times = time_columns →
  partitioned times ["year"; "month"] = Ok (time_layout times).
Proof. unfold partitioned, select. intros ->. reflexivity. Qed.

Lemma time_table_columns df t : time_table df = Ok t → columns t = time_columns.
Proof. by intros [? _]%select_Ok. Qed.

Lemma assemble_songplays_inv spark st facts st' :
  assemble_songplays spark input_root output_root st = (Ok facts, st') →
  ∃ log users df' times rs song_t,
    st !! log_data_path = Some log ∧
    users_table (frame spark log) = Ok users ∧
    with_time_columns spark (frame spark log) = Ok df' ∧
    time_table df' = Ok times ∧
    compute spark (time_layout times) = Ok rs ∧
    st' = <[time_path := mkTable stored_time_columns rs 2]>
          (<[users_path := as_stored users 0]> st) ∧
    st' !! songs_path = Some song_t ∧
    songplays_table spark df' (frame spark song_t) = Ok facts.
Proof.
  unfold assemble_songplays.
  change (os_path_join input_root "log_data/*/*/*.json") with log_data_path.
  change (output_root +:+ "users_table.parquet") with users_path.
  change (output_root +:+ "time_table.parquet") with time_path.
  change (output_root +:+ "songs_table.parquet") with songs_path.
  intros H. inv_run H.
  apply read_Ok in Ha as (log & Hlog & -> & ->).
  apply lift_Ok in Ha0 as [_ ->].
  apply lift_Ok in Ha1 as [Husers ->].
  rewrite (write_five _ users_columns) in Ha2; try done;
    [|by right|by eapply users_table_columns|by eapply distinct_select_wf
     |by eapply distinct_select_plain; [apply frame_plain|]].
  injection Ha2 as <-.
  apply lift_Ok in Ha3 as [Hdf ->].
  apply lift_Ok in Ha4 as [Htimes ->].
  apply write_overwrite_Ok in Ha5 as (dt & rs & Hdt & Hrs & ->).
  rewrite (partitioned_times _ (time_table_columns _ _ Htimes)) in Hdt.
  injection Hdt as <-.
  apply read_Ok in Ha6 as (song_t & Hsongs & -> & ->).
  apply lift_Ok in H as [Hfacts ->].
  exists log, a1, a3, a4, rs, song_t. by subst.
Qed.

(** ** Python's calendar *)

Lemma month_day_spec n leapyear :
  0 ≤ n ≤ 364 →
  let '(m, d) := month_day n leapyear in
  1 ≤ m ≤ 12 ∧ 1 ≤ d ≤ 31 ∧
  index _DAYS_BEFORE_MONTH m + (if (2 <? m) && leapyear then 1 else 0) + d
  = n + 1.
Proof.
  intros Hn.
  assert (H : forallb (λ k, month_day_ok true k && month_day_ok false k)
                (seq 0 365) = true) by (vm_compute; reflexivity).
  rewrite forallb_forall in H.
  assert (Hin : In (Z.to_nat n) (seq 0 365)) by (apply in_seq; lia).
  apply H in Hin. cbv beta in Hin. apply andb_prop in Hin as [Ht Hf].
  unfold month_day_ok in Ht, Hf. rewrite Z2Nat.id in Ht, Hf by lia.
  destruct leapyear; [clear Hf; rename Ht into Hk | clear Ht; rename Hf into Hk];
    destruct (month_day n _) as [m d];
    repeat (apply andb_prop in Hk as [Hk ?]); lia.
Qed.

Lemma _ord2ymd_month_day n :
  let n0 := n - 1 in
  let n400 := n0 / _DI400Y in
  let r1 := n0 mod _DI400Y in
  let n100 := r1 / _DI100Y in
  let r2 := r1 mod _DI100Y in
  let n4 := r2 / _DI4Y in
  let r3 := r2 mod _DI4Y in
  let n1 := r3 / 365 in
  let r4 := r3 mod 365 in
  let year := n400 * 400 + 1 + n100 * 100 + n4 * 4 + n1 in
  _ord2ymd n =
  if (n1 =? 4) || (n100 =? 4) then (year - 1, 12, 31)
  else
    let leapyear := (n1 =? 3) && (negb (n4 =? 24) || (n100 =? 3)) in
    (year, (month_day r4 leapyear).1, (month_day r4 leapyear).2).
Proof.
  intros. unfold _ord2ymd. fold n0 n400 r1 n100 r2 n4 r3 n1 r4 year.
  destruct ((n1 =? 4) || (n100 =? 4)); [reflexivity|].
  cbv zeta. unfold month_day. cbv zeta.
  match goal with |- context [if ?c then _ else _] =>
    match c with (_ <? _) => destruct c end end; reflexivity.
Qed.

Lemma _days_before_year_decomp a b c e :
  0 ≤ b ≤ 3 → 0 ≤ c ≤ 24 → 0 ≤ e ≤ 3 →
  _days_before_year (400 * a + 100 * b + 4 * c + e + 1)
  = 146097 * a + 36524 * b + 1461 * c + 365 * e.
Proof.
  intros. unfold _days_before_year. cbv zeta.
  replace (400 * a + 100 * b + 4 * c + e + 1 - 1)
    with (400 * a + 100 * b + 4 * c + e) by lia.
  Z.div_mod_to_equations. lia.
Qed.

Lemma _is_leap_decomp a b c e :
  0 ≤ b ≤ 3 → 0 ≤ c ≤ 24 → 0 ≤ e ≤ 3 →
  _is_leap (400 * a + 100 * b + 4 * c + e + 1)
  = (e =? 3) && (negb (c =? 24) || (b =? 3)).
Proof.
  intros. unfold _is_leap.
  destruct (Z.eqb_spec e 3), (Z.eqb_spec c 24), (Z.eqb_spec b 3); simpl;
    repeat match goal with
           | |- context [?x =? 0] => destruct (Z.eqb_spec x 0)
           end; simpl; try reflexivity; exfalso;
    Z.div_mod_to_equations; lia.
Qed.

Lemma _days_before_year_next y :
  _days_before_year (y + 1)
  = _days_before_year y + 365 + (if _is_leap y then 1 else 0).
Proof.
  unfold _days_before_year, _is_leap. cbv zeta.
  replace (y + 1 - 1) with y by lia.
  repeat match goal with
         | |- context [?x =? 0] => destruct (Z.eqb_spec x 0)
         end; simpl; Z.div_mod_to_equations; lia.
Qed.

Lemma _ord2ymd_spec n :
  let '(y, m, d) := _ord2ymd n in
  _ymd2ord y m d = n ∧ 1 ≤ m ≤ 12 ∧ 1 ≤ d ≤ 31 ∧
  _days_before_year y < n ≤ _days_before_year (y + 1).
Proof.
  rewrite _ord2ymd_month_day. cbv zeta.
  unfold _DI400Y, _DI100Y, _DI4Y.
  set (n0 := n - 1).
  set (n400 := n0 / _) . set (r1 := n0 mod _).
  set (n100 := r1 / _). set (r2 := r1 mod _).
  set (n4 := r2 / _). set (r3 := r2 mod _).
  set (n1 := r3 / _). set (r4 := r3 mod _).
  assert (E1 : n0 = 146097 * n400 + r1 ∧ 0 ≤ r1 < 146097)
    by (subst n400 r1; split; [apply Z.div_mod | apply Z.mod_pos_bound]; lia).
  assert (E2 : r1 = 36524 * n100 + r2 ∧ 0 ≤ r2 < 36524)
    by (subst n100 r2; split; [apply Z.div_mod | apply Z.mod_pos_bound]; lia).
  assert (E3 : r2 = 1461 * n4 + r3 ∧ 0 ≤ r3 < 1461)
    by (subst n4 r3; split; [apply Z.div_mod | apply Z.mod_pos_bound]; lia).
  assert (E4 : r3 = 365 * n1 + r4 ∧ 0 ≤ r4 < 365)
    by (subst n1 r4; split; [apply Z.div_mod | apply Z.mod_pos_bound]; lia).
  assert (Hn : n = n0 + 1) by (subst n0; lia).
  clearbody n0 n400 r1 n100 r2 n4 r3 n1 r4.
  assert (B1 : 0 ≤ n100 ≤ 4) by lia.
  assert (B2 : 0 ≤ n4 ≤ 24) by lia.
  assert (B3 : 0 ≤ n1 ≤ 4) by lia.
  destruct (Z.eqb_spec n100 4) as [H100|H100].
  { rewrite orb_true_r.
    replace (n400 * 400 + 1 + n100 * 100 + n4 * 4 + n1 - 1)
      with (400 * n400 + 100 * 3 + 4 * 24 + 3 + 1) by lia.
    unfold _ymd2ord, _days_before_month.
    rewrite (_days_before_year_next (400 * n400 + 100 * 3 + 4 * 24 + 3 + 1)).
    rewrite !_days_before_year_decomp, _is_leap_decomp by lia.
    change (index _DAYS_BEFORE_MONTH 12) with 334. simpl. lia. }
  destruct (Z.eqb_spec n1 4) as [H1|H1].
  { simpl.
    replace (n400 * 400 + 1 + n100 * 100 + n4 * 4 + n1 - 1)
      with (400 * n400 + 100 * n100 + 4 * n4 + 3 + 1) by lia.
    unfold _ymd2ord, _days_before_month.
    rewrite (_days_before_year_next (400 * n400 + 100 * n100 + 4 * n4 + 3 + 1)).
    rewrite !_days_before_year_decomp, _is_leap_decomp by lia.
    change (index _DAYS_BEFORE_MONTH 12) with 334.
    destruct (Z.eqb_spec n4 24); [lia|]. simpl. lia. }
  simpl.
  replace (n400 * 400 + 1 + n100 * 100 + n4 * 4 + n1)
    with (400 * n400 + 100 * n100 + 4 * n4 + n1 + 1) by lia.
  set (leap := (n1 =? 3) && (negb (n4 =? 24) || (n100 =? 3))).
  pose proof (month_day_spec r4 leap ltac:(lia)) as Hmd.
  destruct (month_day r4 leap) as [m d]. simpl.
  destruct Hmd as (Hm & Hd & Hs).
  unfold _ymd2ord, _days_before_month.
  rewrite (_days_before_year_next (400 * n400 + 100 * n100 + 4 * n4 + n1 + 1)).
  rewrite !_days_before_year_decomp, _is_leap_decomp by lia.
  fold leap. destruct leap; lia.
Qed.

Lemma _ymd2ord_jan1 y : _ymd2ord y 1 1 = _days_before_year y + 1.
Proof.
  unfold _ymd2ord, _days_before_month.
  change (index _DAYS_BEFORE_MONTH 1) with 0. simpl. lia.
Qed.

Lemma _days_before_year_step y :
  365 ≤ _days_before_year (y + 1) - _days_before_year y ≤ 366.
Proof. rewrite _days_before_year_next. destruct (_is_leap y); lia. Qed.

Lemma isocalendar_spec d :
  _days_before_year (dt_year d) < toordinal d
    ≤ _days_before_year (dt_year d + 1) →
  let thursday := thursday_of (toordinal d) in
  let '(y, w, wd) := isocalendar d in
  _days_before_year y < thursday ≤ _days_before_year (y + 1) ∧
  w = (thursday - _days_before_year y - 1) / 7 + 1 ∧
  1 ≤ w ≤ 53 ∧ wd = weekday d + 1.
Proof.
  intros Hy. unfold isocalendar, weekday, _isoweek1monday, thursday_of.
  cbv zeta.
  rewrite !_ymd2ord_jan1.
  pose proof (_days_before_year_step (dt_year d - 1)) as S0.
  pose proof (_days_before_year_step (dt_year d)) as S1.
  pose proof (_days_before_year_step (dt_year d + 1)) as S2.
  replace (dt_year d - 1 + 1) with (dt_year d) in S0 by lia.
  remember (_days_before_year (dt_year d - 1)) as a0 eqn:E0.
  remember (_days_before_year (dt_year d)) as a1 eqn:E1.
  remember (_days_before_year (dt_year d + 1)) as a2 eqn:E2.
  remember (_days_before_year (dt_year d + 1 + 1)) as a3 eqn:E3.
  remember (toordinal d) as today eqn:E.
  destruct (Z.ltb_spec 3 ((a0 + 1 + 6) mod 7));
    destruct (Z.ltb_spec 3 ((a1 + 1 + 6) mod 7));
    destruct (Z.ltb_spec 3 ((a2 + 1 + 6) mod 7));
    repeat match goal with
           | |- context [?x <? ?y] => destruct (Z.ltb_spec x y)
           | |- context [?x <=? ?y] => destruct (Z.leb_spec x y)
           end; cbn [andb fst snd];
    try replace (dt_year d - 1 + 1) with (dt_year d) by lia;
    rewrite <- ?E0, <- ?E1, <- ?E2, <- ?E3;
    (split; [|split; [|split]]); try reflexivity;
    Z.div_mod_to_equations; lia.
Qed.

Lemma _days_before_year_mono y y' :
  y ≤ y' → _days_before_year y ≤ _days_before_year y'.
Proof. intros. unfold _days_before_year. cbv zeta. Z.div_mod_to_equations. lia. Qed.

(** A day lies in one year only. *)
Lemma year_of_day_unique y y' n :
  _days_before_year y < n ≤ _days_before_year (y + 1) →
  _days_before_year y' < n ≤ _days_before_year (y' + 1) →
  y = y'.
Proof.
  intros H H'.
  destruct (Z.lt_trichotomy y y') as [Hlt|[->|Hlt]]; [|done|].
  - pose proof (_days_before_year_mono (y + 1) y'). lia.
  - pose proof (_days_before_year_mono (y' + 1) y). lia.
Qed.

(** *** [fromtimestamp] *)

Lemma localtime_spec f t x :
  localtime f t = Ok x →
  let day := (t + f t) / 86400 + EPOCH_ORDINAL in
  tm_year x = (_ord2ymd day).1.1 ∧
  _ymd2ord (tm_year x) (tm_mon x) (tm_mday x) = day ∧
  _days_before_year (tm_year x) < day ≤ _days_before_year (tm_year x + 1) ∧
  1 ≤ tm_mon x ≤ 12 ∧ 1 ≤ tm_mday x ≤ 31 ∧
  0 ≤ tm_hour x ≤ 23 ∧ 0 ≤ tm_min x ≤ 59 ∧ 0 ≤ tm_sec x ≤ 59 ∧
  tm_hour x * 3600 + tm_min x * 60 + tm_sec x = (t + f t) mod 86400.
Proof.
  unfold localtime. cbv zeta.
  pose proof (_ord2ymd_spec ((t + f t) / 86400 + EPOCH_ORDINAL)) as H.
  destruct (_ord2ymd _) as [[y m] dd].
  destruct H as (Ho & Hm & Hd & Hy).
  destruct ((- 2 ^ 31 <=? y - 1900) && (y - 1900 <? 2 ^ 31)); [|discriminate].
  intros [= <-]. cbn [tm_year tm_mon tm_mday tm_hour tm_min tm_sec fst].
  repeat split; try lia; Z.div_mod_to_equations; lia.
Qed.

Lemma localtime_raises f t e :
  localtime f t = Raise e →
  ¬ (MINYEAR ≤ (_ord2ymd ((t + f t) / 86400 + EPOCH_ORDINAL)).1.1 ≤ MAXYEAR).
Proof.
  unfold localtime, MINYEAR, MAXYEAR. cbv zeta.
  destruct (_ord2ymd _) as [[y m] dd]. cbn [fst].
  destruct (Z.leb_spec (- 2 ^ 31) (y - 1900));
    destruct (Z.ltb_spec (y - 1900) (2 ^ 31)); simpl; try discriminate; lia.
Qed.

(** A convertible second is converted to its local seconds, counted from
    0001-01-01. *)
Lemma convert_Ok spark t :
  convertible spark t →
  ∃ x, localtime (local_utcoffset spark) t = Ok x ∧
       utc_to_seconds x = Ok (local_seconds spark t + epoch).
Proof.
  intros [Ht Hy]. unfold local_year, local_seconds in Hy.
  destruct (localtime (local_utcoffset spark) t) as [x|e] eqn:E.
  - exists x. split; [done|].
    apply localtime_spec in E as (Ey & Eo & _ & _ & _ & Hh & Hm & Hs & Hsec).
    unfold utc_to_seconds. rewrite Ey.
    destruct (Z.ltb_spec ((_ord2ymd ((t + local_utcoffset spark t) / 86400
                                      + EPOCH_ORDINAL)).1.1) MINYEAR); [lia|].
    destruct (Z.ltb_spec MAXYEAR ((_ord2ymd ((t + local_utcoffset spark t)
                                      / 86400 + EPOCH_ORDINAL)).1.1)); [lia|].
    simpl. rewrite <- Ey, Eo. f_equal. unfold local_seconds, epoch, EPOCH_ORDINAL.
    Z.div_mod_to_equations. lia.
  - by apply localtime_raises in E.
Qed.

Lemma convert_raises spark t :
  ¬ (MINYEAR ≤ local_year spark t ≤ MAXYEAR) →
  raises (try x := localtime (local_utcoffset spark) t in utc_to_seconds x).
Proof.
  intros Hy. unfold local_year, local_seconds in Hy.
  destruct (localtime (local_utcoffset spark) t) as [x|e] eqn:E;
    [|by exists e].
  apply localtime_spec in E as (Ey & _). simpl.
  unfold utc_to_seconds. rewrite Ey.
  destruct (Z.ltb_spec ((_ord2ymd ((t + local_utcoffset spark t) / 86400
                                    + EPOCH_ORDINAL)).1.1) MINYEAR);
    [by exists ValueError|].
  destruct (Z.ltb_spec MAXYEAR ((_ord2ymd ((t + local_utcoffset spark t)
                                    / 86400 + EPOCH_ORDINAL)).1.1));
    [by exists ValueError|]. lia.
Qed.

Lemma fits_time_t_spec t : fits_time_t t = true ↔ - 2 ^ 63 ≤ t < 2 ^ 63.
Proof. unfold fits_time_t. rewrite andb_true_iff, Z.leb_le, Z.ltb_lt. done. Qed.

Lemma local_Ok spark u :
  convertible spark (u - epoch) →
  local (local_utcoffset spark) u
  = Ok (local_seconds spark (u - epoch) + epoch).
Proof.
  intros Hc. unfold local. cbv zeta.
  rewrite (proj2 (fits_time_t_spec _)) by apply Hc.
  destruct (convert_Ok _ _ Hc) as (x & -> & Hx). done.
Qed.

Lemma local_raises spark u :
  ¬ convertible spark (u - epoch) → raises (local (local_utcoffset spark) u).
Proof.
  intros Hc. unfold local. cbv zeta.
  destruct (fits_time_t (u - epoch)) eqn:E; [|by exists OverflowError].
  apply convert_raises. intros Hy. apply Hc. split; [|done].
  by apply fits_time_t_spec.
Qed.

(** [fromtimestamp] returns exactly when it can convert the seconds it
    probes. *)
Lemma fromtimestamp_Ok spark s :
  Forall (convertible spark) (probes spark s) →
  ∃ d, fromtimestamp (local_utcoffset spark) s = Ok d.
Proof.
  unfold probes. cbv zeta. intros H.
  apply Forall_cons in H as [H0 H]. apply Forall_cons in H as [H1 H].
  unfold fromtimestamp.
  rewrite (proj2 (fits_time_t_spec _)) by apply H0.
  destruct (convert_Ok _ _ H0) as (x & -> & Hx). cbn [rbind]. rewrite Hx.
  cbn [rbind].
  rewrite (local_Ok spark (epoch + s - max_fold_seconds))
    by (by replace (epoch + s - max_fold_seconds - epoch)
             with (s - max_fold_seconds) by lia).
  cbn [rbind].
  replace (epoch + s - max_fold_seconds - epoch)
    with (s - max_fold_seconds) by lia.
  replace (local_seconds spark s + epoch
           - (local_seconds spark (s - max_fold_seconds) + epoch)
           - max_fold_seconds)
    with (local_utcoffset spark s
          - local_utcoffset spark (s - max_fold_seconds))
    by (unfold local_seconds; lia).
  destruct (_ <? 0) eqn:E.
  - apply Forall_cons in H as [H2 _].
    rewrite (local_Ok spark (epoch + s + _))
      by (by match goal with |- convertible _ ?a =>
               replace a with (s + (local_utcoffset spark s
                 - local_utcoffset spark (s - max_fold_seconds))) by lia end).
    cbn [rbind]. by eexists.
  - cbn [rbind]. by eexists.
Qed.

Lemma fromtimestamp_raises spark s :
  ¬ Forall (convertible spark) (probes spark s) →
  raises (fromtimestamp (local_utcoffset spark) s).
Proof.
  unfold probes. cbv zeta. intros H. unfold fromtimestamp.
  destruct (fits_time_t s) eqn:Ef; [|by exists OverflowError].
  apply fits_time_t_spec in Ef.
  destruct (decide (MINYEAR ≤ local_year spark s ≤ MAXYEAR)) as [Hy|Hy].
  2:{ destruct (convert_raises _ _ Hy) as [e He].
      destruct (localtime _ s) as [x|]; simpl in *; [|by eexists].
      rewrite He. simpl. by eexists. }
  assert (H0 : convertible spark s) by done.
  destruct (convert_Ok _ _ H0) as (x & -> & Hx). cbn [rbind]. rewrite Hx.
  cbn [rbind].
  destruct (decide (- 2 ^ 63 ≤ s - max_fold_seconds < 2 ^ 63
                    ∧ MINYEAR ≤ local_year spark (s - max_fold_seconds)
                      ≤ MAXYEAR)) as [H1|H1].
  2:{ destruct (local_raises spark (epoch + s - max_fold_seconds)) as [e ->];
        [|simpl; by eexists].
      by replace (epoch + s - max_fold_seconds - epoch)
        with (s - max_fold_seconds) by lia. }
  rewrite (local_Ok spark (epoch + s - max_fold_seconds))
    by (by replace (epoch + s - max_fold_seconds - epoch)
             with (s - max_fold_seconds) by lia).
  cbn [rbind].
  replace (epoch + s - max_fold_seconds - epoch)
    with (s - max_fold_seconds) by lia.
  replace (local_seconds spark s + epoch
           - (local_seconds spark (s - max_fold_seconds) + epoch)
           - max_fold_seconds)
    with (local_utcoffset spark s
          - local_utcoffset spark (s - max_fold_seconds))
    by (unfold local_seconds; lia).
  destruct (_ <? 0) eqn:E.
  - destruct (local_raises spark (epoch + s + (local_utcoffset spark s
                - local_utcoffset spark (s - max_fold_seconds)))) as [e ->];
      [|simpl; by eexists].
    intros H2. apply H.
    apply Forall_cons; split; [done|]. apply Forall_cons; split; [done|].
    apply Forall_cons; split; [|constructor].
    by match goal with H2 : convertible _ ?a |- convertible _ ?b =>
         replace b with a by lia end.
  - destruct H.
    apply Forall_cons; split; [done|]. apply Forall_cons; split; [done|].
    constructor.
Qed.

(** What [fromtimestamp] returns is the local civil time of the
    second. *)
Lemma fromtimestamp_spec f t d :
  fromtimestamp f t = Ok d →
  toordinal d = (t + f t) / 86400 + EPOCH_ORDINAL ∧
  _days_before_year (dt_year d) < toordinal d
    ≤ _days_before_year (dt_year d + 1) ∧
  1 ≤ dt_year d ≤ 9999 ∧ 1 ≤ dt_month d ≤ 12 ∧ 1 ≤ dt_day d ≤ 31 ∧
  0 ≤ dt_hour d ≤ 23 ∧ 0 ≤ dt_minute d ≤ 59 ∧ 0 ≤ dt_second d ≤ 59 ∧
  dt_hour d * 3600 + dt_minute d * 60 + dt_second d = (t + f t) mod 86400.
Proof.
  unfold fromtimestamp. destruct (fits_time_t t); [|discriminate].
  intros H. inv_try H. injection H as <-.
  apply localtime_spec in Ha as (Ey & Eo & Hy & Hm & Hd & Hh & Hmi & Hs & E).
  unfold utc_to_seconds, MINYEAR, MAXYEAR in Ha0.
  destruct (Z.ltb_spec (tm_year a) 1); [discriminate|].
  destruct (Z.ltb_spec 9999 (tm_year a)); [discriminate|].
  unfold toordinal.
  cbn [dt_year dt_month dt_day dt_hour dt_minute dt_second].
  rewrite Eo. repeat split; try lia.
Qed.

Lemma fromtimestamp_ext f g t :
  (∀ s, f s = g s) → fromtimestamp f t = fromtimestamp g t.
Proof.
  intros H. unfold fromtimestamp.
  assert (L : ∀ s, localtime f s = localtime g s)
    by (intros; unfold localtime; by rewrite H).
  assert (Lo : ∀ u, local f u = local g u)
    by (intros; unfold local; by rewrite L).
  destruct (fits_time_t t); [|done]. rewrite L.
  destruct (localtime g t) as [x|]; [|done]. cbn [rbind].
  destruct (utc_to_seconds x) as [rs|]; [|done]. cbn [rbind]. rewrite Lo.
  destruct (local g _) as [ps|]; [|done]. cbn [rbind].
  destruct (_ <? 0); [|done]. by rewrite Lo.
Qed.

Lemma weekday_bounds d : 0 ≤ weekday d < 7.
Proof. unfold weekday. apply Z.mod_pos_bound. lia. Qed.

Lemma day_name_at_elem i : 0 ≤ i < 7 → day_name_at i ∈ day_name.
Proof.
  intros H.
  assert (i = 0 ∨ i = 1 ∨ i = 2 ∨ i = 3 ∨ i = 4 ∨ i = 5 ∨ i = 6)
    as [->|[->|[->|[->|[->|[->| ->]]]]]] by lia;
    vm_compute; repeat first [apply list_elem_of_here | apply list_elem_of_further].
Qed.

(** * The claims *)

(** ** The week and weekday columns *)

Lemma field_time_cells spark t c :
  columns t = time_columns →
  field t "start_time" (time_cells spark c) = Ok (instant spark c) ∧
  field t "week" (time_cells spark c)
  = Ok (apply_udf get_week (instant spark c)) ∧
  field t "weekday" (time_cells spark c)
  = Ok (apply_udf get_weekday (instant spark c)).
Proof. unfold field. intros ->. done. Qed.

(** C1: what the code does.  The lambda that line 89 calls [get_week]
    returns the English name of the day of the week, and line 99 puts it
    under [week]; the lambda that line 90 calls [get_weekday] returns the
    ISO-8601 week number, and line 102 puts it under [weekday]: the two
    are exchanged with respect to the claim.  No UDF has a return type,
    so a job computes both cells as strings: the name, and the decimal
    digits of the number. *)
Theorem C1_week_and_weekday_exchanged spark df df' t :
  wf df → with_time_columns spark df = Ok df' → time_table df' = Ok t →
  ∃ i, resolve (columns df) "ts" = Ok i ∧
    Forall2 (λ r tr, ∀ x d,
        cell r i = Data x → get_datetime spark x = Ok (VDateTime d) →
        field t "week" tr = Ok (Udf (Ok (VStr (day_name_at (weekday d))))) ∧
        field t "weekday" tr = Ok (Udf (Ok (VInt (isocalendar d).1.2))) ∧
        computed spark t "week" tr = Ok (VStr (day_name_at (weekday d))) ∧
        computed spark t "weekday" tr
        = Ok (VStr (pretty (isocalendar d).1.2)))
      (rows df) (rows t).
Proof.
  intros Hwf Hdf Ht.
  destruct (time_table_rows _ _ _ _ Hwf Hdf Ht) as (Hc & i & Hi & Hr).
  exists i. split; [done|]. rewrite Hr.
  apply Forall2_fmap_r, Forall_Forall2_diag, Forall_true.
  intros r x d Hx Hd. unfold computed.
  destruct (field_time_cells spark t (cell r i) Hc) as (_ & -> & ->).
  rewrite Hx. unfold instant. simpl. rewrite Hd. done.
Qed.

Lemma C1_week_and_weekday_exchanged_witness :
  ∃ i, resolve (columns Sample.events_df) "ts" = Ok i ∧
    Forall2 (λ r tr, ∀ x d,
        cell r i = Data x → get_datetime Sample.utc x = Ok (VDateTime d) →
        field Sample.times "week" tr
        = Ok (Udf (Ok (VStr (day_name_at (weekday d))))) ∧
        field Sample.times "weekday" tr
        = Ok (Udf (Ok (VInt (isocalendar d).1.2))) ∧
        computed Sample.utc Sample.times "week" tr
        = Ok (VStr (day_name_at (weekday d))) ∧
        computed Sample.utc Sample.times "weekday" tr
        = Ok (VStr (pretty (isocalendar d).1.2)))
      (rows Sample.events_df) (rows Sample.times).
Proof.
  apply (C1_week_and_weekday_exchanged Sample.utc Sample.events_df
           Sample.enriched Sample.times).
  - unfold wf. vm_compute. repeat constructor.
  - vm_compute. reflexivity.
  - vm_compute. reflexivity.
Defined.

(** The event of epoch millisecond 1000000000000 is Sunday 2001-09-09 in
    UTC, in ISO week 36: the time table that is written has the string
    ["Sunday"] under [week] and the string ["36"] under [weekday]. *)
Example C1_failing_input :
  (try df := with_time_columns Sample.utc Sample.one_event_df in
   try t := time_table df in
   try rs := compute Sample.utc t in Ok (columns t, rs))
  = Ok (["start_time"; "hour"; "day"; "week"; "month"; "year"; "weekday"],
        [[VStr (Sample.calendar_text "UTC" 0
                  (mkDatetime 2001 9 9 1 46 40 false));
          VStr "1"; VStr "9"; VStr "Sunday"; VStr "9"; VStr "2001";
          VStr "36"]]).
Proof. vm_compute. reflexivity. Qed.

(** ** Join exclusivity and multiplicity *)

Lemma key_eq_text spark c x :
  text c → key_eq spark c (Data (VStr x)) = true ↔ c = Data (VStr x).
Proof.
  intros Hc. split.
  - destruct Hc as [->|[t ->]]; unfold key_eq; simpl; [done|].
    by intros ->%bool_decide_eq_true.
  - intros ->. unfold key_eq. simpl. by apply bool_decide_eq_true.
Qed.


Lemma filter_ext_in {A} (P Q : A → Prop) `{!∀ x, Decision (P x)}
    `{!∀ x, Decision (Q x)} (l : list A) :
  (∀ x, x ∈ l → P x ↔ Q x) → filter P l = filter Q l.
Proof.
  induction l as [|a l IH]; intros HPQ; [done|]. rewrite !filter_cons.
  rewrite IH by (intros x Hx; apply HPQ; by right).
  destruct (decide (P a)) as [HP|HP], (decide (Q a)) as [HQ|HQ]; try done.
  - destruct HQ. apply HPQ; [by left|done].
  - destruct HP. apply HPQ; [by left|done].
Qed.

(** On a text column the join matches a string key with the rows that
    hold the same string, and a NULL key with none. *)
Lemma matches_text spark song_df title x :
  text_column song_df "title" →
  resolve (columns song_df) "title" = Ok title →
  matches spark song_df title (Data (VStr x)) = rows_with song_df title x.
Proof.
  intros Htext Ht. unfold matches, rows_with.
  apply filter_ext_in. intros r Hr.
  apply key_eq_text. by eapply Htext.
Qed.




Lemma sample_titles_are_text : text_column Sample.song_df "title".
Proof.
  intros r i Hr [= <-]. vm_compute in Hr.
  repeat (apply elem_of_cons in Hr as [->|Hr]; [right; by eexists|]).
  by apply elem_of_nil in Hr.
Qed.


(** In the sample, "Song A" is the title of one track, "Song B" of two
    and "Song Z" of none: the three plays give one, two and no fact
    rows. *)
Example sample_facts :
  (λ r, [cell r 1; cell r 3; cell r 4]) <$> rows Sample.facts
  = [[Data (VStr "7"); Data (VStr "T1"); Data (VStr "P1")];
     [Data (VStr "7"); Data (VStr "T2"); Data (VStr "P2")];
     [Data (VStr "7"); Data (VStr "T3"); Data (VStr "P3")]].
Proof. vm_compute. reflexivity. Qed.



(** ** The columns of the fact table and its write *)

Lemma songplays_table_columns spark df song_df facts :
  songplays_table spark df song_df = Ok facts →
  columns facts = songplays_columns.
Proof. by intros (_ & _ & _ & _ & _ & _ & ? & _)%songplays_table_Ok. Qed.

(** A table with the columns of the songplays table cannot be laid out by
    year and month: it has no such columns. *)
Lemma songplays_not_partitioned facts :
  columns facts = songplays_columns →
  partitioned facts ["year"; "month"] = Raise AnalysisException.
Proof. unfold partitioned, select. intros ->. reflexivity. Qed.

Lemma assemble_songplays_Ok spark input_data output_data st facts st' :
  assemble_songplays spark input_data output_data st = (Ok facts, st') →
  ∃ df song_df, songplays_table spark df song_df = Ok facts.
Proof.
  unfold assemble_songplays. intros H. inv_run H.
  apply lift_Ok in H as [H _]. eauto.
Qed.

(** C2: what the code does.  The fact table has exactly the eight
    projected columns, so neither [year] nor [month]; asked to partition
    it by them, the write raises and leaves the store as it was.  When
    an earlier step of [process_log_data] raises, that exception is the
    outcome.  So [process_log_data] never completes, and neither does
    [main]. *)
Theorem C2_fact_table_has_no_partition_columns :
  (∀ spark input_data output_data st,
     match assemble_songplays spark input_data output_data st with
     | (Ok facts, st') =>
         columns facts = songplays_columns ∧
         ("year" ∉ columns facts) ∧ ("month" ∉ columns facts) ∧
         process_log_data spark input_data output_data st
         = (Raise AnalysisException, st')
     | (Raise e, st') =>
         process_log_data spark input_data output_data st = (Raise e, st')
     end) ∧
  (∀ cluster st, (main cluster st).1 ≠ Ok ()).
Proof.
  assert (Hlog : ∀ spark input_data output_data st,
    match assemble_songplays spark input_data output_data st with
    | (Ok facts, st') =>
        columns facts = songplays_columns ∧
        ("year" ∉ columns facts) ∧ ("month" ∉ columns facts) ∧
        process_log_data spark input_data output_data st
        = (Raise AnalysisException, st')
    | (Raise e, st') =>
        process_log_data spark input_data output_data st = (Raise e, st')
    end).
  { intros spark input_data output_data st.
    unfold process_log_data, jbind.
    destruct (assemble_songplays spark input_data output_data st)
      as [[facts|e] st'] eqn:E; [|done].
    apply assemble_songplays_Ok in E
      as (df & song_df & Hc%songplays_table_columns).
    rewrite write_overwrite, (songplays_not_partitioned _ Hc), Hc.
    repeat split; try done; not_in_list. }
  split; [done|].
  intros cluster st. unfold main, jbind, create_spark_session.
  destruct (process_song_data cluster input_root output_root st)
    as [[[]|e] st1]; [|done].
  specialize (Hlog cluster input_root output_root st1).
  destruct (assemble_songplays cluster input_root output_root st1)
    as [[facts|e] st2].
  - destruct Hlog as (_ & _ & _ & ->). done.
  - by rewrite Hlog.
Qed.

(** The run on the sample store: the four dimension tables are written,
    then the write of the fact table raises. *)
Example C2_failing_input :
  (main Sample.utc Sample.store0).1 = Raise AnalysisException ∧
  dom (main Sample.utc Sample.store0).2
  = {[song_data_path; log_data_path; songs_path; artists_path; users_path;
      time_path]}.
Proof.
  split; [vm_compute; reflexivity|].
  apply (bool_decide_unpack _). vm_compute. exact I.
Qed.

(** ** From the timestamp to the instant *)

(** C6, as stated, fails on a negative timestamp: one and a half seconds
    before the epoch is accepted, and its instant is the last second of
    1969 (in UTC). *)
Lemma C6_counterexample :
  negative (VInt (-1500)) ∧
  get_datetime Sample.utc (VInt (-1500))
  = Ok (VDateTime (mkDatetime 1969 12 31 23 59 59 false)).
Proof.
  split.
  - exists (-1500). split; [done|lia].
  - vm_compute. reflexivity.
Qed.

(** The outcomes of the derivation on a missing, a non-numeric, a string
    and a far-future timestamp, and on the first second of year 1, whose
    probe of the day before leaves the years of [datetime]. *)
Example timestamp_outcomes :
  get_datetime Sample.utc VNull = Raise TypeError ∧
  get_datetime Sample.utc (VStr "soon") = Raise ValueError ∧
  get_datetime Sample.utc (VStr "1000000000000")
  = Ok (VDateTime (mkDatetime 2001 9 9 1 46 40 false)) ∧
  get_datetime Sample.utc (VInt 400000000000000) = Raise ValueError ∧
  get_datetime Sample.utc (VInt (-62135596800000)) = Raise ValueError.
Proof. repeat split; vm_compute; reflexivity. Qed.

Lemma str_of_int_small n : Z.abs n < 2 ^ 64 → str_of_int n = Ok (pretty n).
Proof.
  intros Hn. unfold str_of_int, max_str_digits.
  assert (2 ^ 64 < 10 ^ 4300).
  { eapply Z.lt_le_trans; [apply (Z.pow_lt_mono_l 2 10 64); lia|].
    apply Z.pow_le_mono_r; lia. }
  destruct (Z.ltb_spec (Z.abs n) (10 ^ 4300)); [done|lia].
Qed.

Lemma get_datetime_trunc spark x n :
  int x = Ok n → Z.abs n < 2 ^ 52 →
  get_timestamp x = Ok (VStr (pretty (Z.quot n 1000))) ∧
  get_datetime spark x
  = VDateTime <$$> fromtimestamp (local_utcoffset spark) (Z.quot n 1000).
Proof.
  intros Hn Hb. pose proof (truediv_1000_trunc n Hb) as Hq.
  unfold get_timestamp, get_datetime. rewrite Hn. cbn [rbind].
  destruct (truediv n 1000) as [q|e]; [|discriminate]. cbn [rbind] in *.
  rewrite Hq. cbn [rbind]. split.
  - rewrite str_of_int_small; [done|].
    assert (Z.abs (n ÷ 1000) ≤ Z.abs n); [|lia].
    rewrite <- Z.quot_abs by lia.
    apply Z.quot_le_upper_bound; lia.
  - by destruct (fromtimestamp _ _).
Qed.

(** C6, amended.  The derivation raises the exception of [int] when the
    timestamp is missing or not numeric.  For a timestamp [n] below 2^52
    in absolute value, negative or not, the seconds are [n / 1000]
    truncated toward zero; the derivation raises exactly when one of the
    seconds that [fromtimestamp] converts for them has a local year
    outside [MINYEAR..MAXYEAR]; and the instant it returns otherwise is
    the local civil time of the seconds. *)
Theorem C6_timestamp_to_instant spark x :
  (∀ e, int x = Raise e →
        get_timestamp x = Raise e ∧ get_datetime spark x = Raise e) ∧
  (∀ n, int x = Ok n → Z.abs n < 2 ^ 52 →
        let s := Z.quot n 1000 in
        get_timestamp x = Ok (VStr (pretty s)) ∧
        get_datetime spark x
        = VDateTime <$$> fromtimestamp (local_utcoffset spark) s ∧
        (raises (get_datetime spark x) ↔
         ¬ Forall (convertible spark) (probes spark s)) ∧
        (∀ d, get_datetime spark x = Ok (VDateTime d) →
              toordinal d = local_seconds spark s / 86400 + EPOCH_ORDINAL ∧
              dt_hour d * 3600 + dt_minute d * 60 + dt_second d
              = local_seconds spark s mod 86400)).
Proof.
  split.
  - intros e He. unfold get_timestamp, get_datetime. by rewrite He.
  - intros n Hn Hb s.
    destruct (get_datetime_trunc spark x n Hn Hb) as [Ht Hd]. fold s in Ht, Hd.
    split; [done|]. split; [done|]. rewrite Hd. split.
    + split.
      * intros [e He] Hp. apply fromtimestamp_Ok in Hp as [d Hp].
        rewrite Hp in He. discriminate.
      * intros [e He]%fromtimestamp_raises. rewrite He. by exists e.
    + intros d Hd'.
      destruct (fromtimestamp _ s) as [d0|] eqn:E; [|discriminate].
      injection Hd' as <-.
      apply fromtimestamp_spec in E as (Ho & _ & _ & _ & _ & _ & _ & _ & Hs).
      done.
Qed.

Lemma C6_timestamp_to_instant_witness :
  get_timestamp (VInt (-1500)) = Ok (VStr (pretty (Z.quot (-1500) 1000))) ∧
  get_datetime Sample.utc (VInt (-1500))
  = VDateTime <$$> fromtimestamp (local_utcoffset Sample.utc)
                     (Z.quot (-1500) 1000) ∧
  (raises (get_datetime Sample.utc (VInt (-1500))) ↔
   ¬ Forall (convertible Sample.utc)
       (probes Sample.utc (Z.quot (-1500) 1000))) ∧
  (∀ d, get_datetime Sample.utc (VInt (-1500)) = Ok (VDateTime d) →
        toordinal d
        = local_seconds Sample.utc (Z.quot (-1500) 1000) / 86400
          + EPOCH_ORDINAL ∧
        dt_hour d * 3600 + dt_minute d * 60 + dt_second d
        = local_seconds Sample.utc (Z.quot (-1500) 1000) mod 86400).
Proof.
  apply (proj2 (C6_timestamp_to_instant Sample.utc (VInt (-1500))) (-1500)).
  - reflexivity.
  - reflexivity.
Defined.

(** The timestamp of the example scenario, in a zone at UTC. *)
Lemma billion_seconds spark :
  (∀ t, local_utcoffset spark t = 0) →
  get_datetime spark (VInt 1000000000000)
  = Ok (VDateTime (mkDatetime 2001 9 9 1 46 40 false)).
Proof.
  intros H0.
  destruct (get_datetime_trunc spark (VInt 1000000000000) 1000000000000)
    as [_ ->]; [done|done|].
  rewrite (fromtimestamp_ext _ (λ _, 0)) by done.
  vm_compute. reflexivity.
Qed.

(** ** One play of "Song A" *)

Lemma field_Ok df name r v :
  field df name r = Ok v ↔ ∃ i, resolve (columns df) name = Ok i ∧ cell r i = v.
Proof.
  unfold field. destruct (resolve (columns df) name) as [i|e]; simpl.
  - split; [intros [= <-]; eauto | by intros (? & [= <-] & <-)].
  - split; [done | by intros (? & ? & _)].
Qed.

(** C3: what the code does.  An event log of one row, a play of "Song A"
    at epoch millisecond 1000000000000, against a songs table whose
    titles are text and in which "Song A" is the title of one row, the
    track "T1", with the workers at UTC: there is exactly one fact row and
    its track is "T1".  The lambda of line 88 gives the instant
    2001-09-09T01:46:40 on it; but [udf] is called without a return
    type, so the cell under [start_time] is computed as a string, the
    [toString] of the Java calendar that the instant is unpickled to,
    not as a date-time value. *)
Theorem C3_one_play_of_song_a spark events song_df df' facts e s :
  wf events →
  rows events = [e] →
  field events "song" e = Ok (Data (VStr "Song A")) →
  field events "ts" e = Ok (Data (VInt 1000000000000)) →
  text_column song_df "title" →
  filter (λ r, field song_df "title" r = Ok (Data (VStr "Song A")))
         (rows song_df) = [s] →
  field song_df "song_id" s = Ok (Data (VStr "T1")) →
  (∀ t, local_utcoffset spark t = 0) →
  with_time_columns spark events = Ok df' →
  songplays_table spark df' song_df = Ok facts →
  let instant := VDateTime (mkDatetime 2001 9 9 1 46 40 false) in
  ∃ f, rows facts = [f] ∧
    field facts "song_id" f = Ok (Data (VStr "T1")) ∧
    field facts "start_time" f = Ok (Udf (Ok instant)) ∧
    computed spark facts "start_time" f
    = Ok (VStr (java_toString spark instant)).
Proof.
  intros Hwf He Hsong Hts Htext Hs Hid Hutc Hdf Hfacts.
  destruct (with_time_columns_row _ _ _ Hwf Hdf)
    as (Hwf' & Hlen & _ & Hder & i & Hi & Hrow).
  rewrite He in Hlen. simpl in Hlen.
  destruct (rows df') as [|r' [|? ?]] eqn:Er'; try discriminate. clear Hlen.
  destruct (Hrow 0%nat r' eq_refl) as (e0 & He0 & (Nst & _) & Hoth).
  rewrite He in He0. injection He0 as <-.
  (* the instant *)
  apply field_Ok in Hts as (i' & Hi' & Hts).
  assert (i' = i) as -> by congruence. rewrite Hts in Nst.
  unfold instant in Nst. simpl in Nst. rewrite (billion_seconds _ Hutc) in Nst.
  (* the song of the event row, after the derived columns *)
  apply field_Ok in Hsong as (j & Hj & Hsong).
  assert (Nsong : named (columns df') r' "song" (Data (VStr "Song A"))).
  { apply Hoth; [not_in_list|]. rewrite <- Hsong. by apply resolve_named. }
  apply songplays_table_Ok in Hfacts
    as (title & song & idxs & Ht & Hso & Hidx & Hc & Hr).
  rewrite Er' in Hr. rewrite bind_cons in Hr. simpl in Hr.
  rewrite app_nil_r in Hr. unfold facts_of_event in Hr.
  assert (Hcs : cell r' song = Data (VStr "Song A")).
  { apply Nsong. by apply resolve_Ok in Hso as [? _]. }
  rewrite Hcs in Hr.
  assert (Hm : matches spark song_df title (Data (VStr "Song A")) = [s]).
  { rewrite (matches_text _ _ _ _ Htext Ht), <- Hs. unfold rows_with.
    apply list_filter_iff. intros r. rewrite field_Ok. split; [eauto|].
    intros (? & ? & ?). congruence. }
  rewrite Hm in Hr. simpl in Hr.
  unfold songplays_columns in Hidx.
  repeat match goal with
  | H : Forall2 _ (_ :: _) _ |- _ =>
      let R := fresh "R" in
      apply Forall2_cons_inv_l in H as (? & ? & R & H & ->)
  | H : Forall2 _ [] _ |- _ => apply Forall2_nil_inv_l in H as ->
  end.
  eexists. split; [done|].
  assert (Hlr : length r' = length (columns df')).
  { unfold wf in Hwf'. rewrite Er' in Hwf'.
    by apply (Forall_lookup_1 _ _ 0%nat r') in Hwf'. }
  match goal with
  | |- _ ∧ field facts "start_time" ?f = Ok ?c ∧ _ =>
      assert (Hstart : field facts "start_time" f = Ok c)
  end.
  { apply field_Ok. exists 0%nat. rewrite Hc. split; [done|]. simpl.
    destruct (resolve_app_l _ _ _ _ R) as [Hlt Hx].
    { apply Hder. unfold derived_columns. set_solver. }
    rewrite cell_app_l by lia. by apply Nst. }
  split; [|split].
  - apply field_Ok. exists 3%nat. rewrite Hc. split; [done|]. simpl.
    apply field_Ok in Hid as (k & Hk & Hid).
    destruct (resolve_app_r _ _ _ _ R2) as (k' & -> & Hk').
    { apply resolve_Ok in Hk as [Hk _]. by eapply list_elem_of_lookup_2. }
    rewrite <- Hlr, cell_app_r.
    apply resolve_Ok in Hk as [_ Hu]. by rewrite (Hu k' Hk').
  - done.
  - unfold computed. by rewrite Hstart.
Qed.

Lemma C3_one_play_of_song_a_witness :
  let instant := VDateTime (mkDatetime 2001 9 9 1 46 40 false) in
  ∃ f, rows Sample.one_fact = [f] ∧
    field Sample.one_fact "song_id" f = Ok (Data (VStr "T1")) ∧
    field Sample.one_fact "start_time" f = Ok (Udf (Ok instant)) ∧
    computed Sample.utc Sample.one_fact "start_time" f
    = Ok (VStr (java_toString Sample.utc instant)).
Proof.
  apply (C3_one_play_of_song_a Sample.utc Sample.one_event_df Sample.song_df
           Sample.one_enriched Sample.one_fact
           (Data <$> Sample.play (VStr "Song A") 1000000000000)
           (Data <$> [VStr "T1"; VStr "Song A"; Sample.duration; VInt 2000;
                      VStr "P1"])).
  - unfold wf. vm_compute. repeat constructor.
  - reflexivity.
  - reflexivity.
  - reflexivity.
  - exact sample_titles_are_text.
  - vm_compute. reflexivity.
  - reflexivity.
  - reflexivity.
  - vm_compute. reflexivity.
  - vm_compute. reflexivity.
Defined.

(** On the sample the fact row holds, under [start_time], the text of a
    Java calendar and no date-time value. *)
Example C3_failing_input :
  (try df := with_time_columns Sample.utc Sample.one_event_df in
   try t := songplays_table Sample.utc df Sample.song_df in
   compute Sample.utc t)
  = Ok [[VStr (Sample.calendar_text "UTC" 0
                 (mkDatetime 2001 9 9 1 46 40 false));
         VStr "7"; VStr "free"; VStr "T1"; VStr "P1"; VInt 5; VStr "NYC";
         VStr "UA"]].
Proof. vm_compute. reflexivity. Qed.

(** ** Deduplication of the catalog tables *)

Lemma remove_dups_app_dups {A} `{EqDecision A} (l d : list A) :
  d ⊆ l → remove_dups (l ++ d) ≡ₚ remove_dups l.
Proof.
  intros Hd. apply NoDup_Permutation; [apply NoDup_remove_dups ..|].
  intros x. rewrite !elem_of_remove_dups, elem_of_app.
  split; [intros [?|?]; auto | auto].
Qed.

Lemma distinct_select_appended df names dups t :
  dups ⊆ rows df →
  distinct <$$> select df names = Ok t →
  ∃ t', distinct <$$> select (with_appended df dups) names = Ok t' ∧
        columns t' = columns t ∧ rows t' ≡ₚ rows t.
Proof.
  intros Hd H. inv_try H. subst t. unfold select in *. simpl.
  destruct (result_mapM (resolve (columns df)) names) as [idxs|];
    [|discriminate].
  simpl in *. injection Ha as <-. eexists. split; [done|]. simpl.
  split; [done|]. rewrite fmap_app. apply remove_dups_app_dups.
  intros r (r0 & -> & Hr0)%list_elem_of_fmap.
  apply list_elem_of_fmap. exists r0. split; [done|]. by apply Hd.
Qed.

Lemma output_paths_distinct :
  song_data_path ≠ songs_path ∧ song_data_path ≠ artists_path ∧
  log_data_path ≠ songs_path ∧ log_data_path ≠ artists_path ∧
  songs_path ≠ artists_path ∧ songs_path ≠ users_path ∧
  songs_path ≠ time_path ∧ artists_path ≠ users_path ∧
  artists_path ≠ time_path ∧ log_data_path ≠ users_path ∧
  log_data_path ≠ time_path ∧ users_path ≠ time_path.
Proof. repeat split; discriminate. Qed.

(** C5: deduplication is insensitive to appended duplicates and a second
    run changes nothing.  When the catalog is extended with rows it
    already holds, the songs and artists tables have the same columns and
    the same rows up to order; and running [process_song_data] again on
    the store it has left gives back that store, tables included. *)
Theorem C5_dedup_idempotent :
  (∀ df dups songs artists,
     dups ⊆ rows df →
     songs_table df = Ok songs → artists_table df = Ok artists →
     ∃ songs' artists',
       songs_table (with_appended df dups) = Ok songs' ∧
       artists_table (with_appended df dups) = Ok artists' ∧
       columns songs' = columns songs ∧ rows songs' ≡ₚ rows songs ∧
       columns artists' = columns artists ∧ rows artists' ≡ₚ rows artists) ∧
  (∀ spark st st1,
     process_song_data spark input_root output_root st = (Ok (), st1) →
     process_song_data spark input_root output_root st1 = (Ok (), st1)).
Proof.
  split.
  - intros df dups songs artists Hd Hs Ha.
    destruct (distinct_select_appended _ _ _ _ Hd Hs) as (s' & Hs' & ? & ?).
    destruct (distinct_select_appended _ _ _ _ Hd Ha) as (a' & Ha' & ? & ?).
    by exists s', a'.
  - intros spark st st1 H.
    destruct (process_song_data_Ok _ _ _ H)
      as (cat & songs & artists & Hdf & Hs & Ha & ->).
    destruct output_paths_distinct as (? & ? & _ & _ & ? & _).
    rewrite (process_song_data_run _ _ cat)
      by by rewrite !lookup_insert_ne.
    rewrite Hs. cbv zeta. rewrite Ha.
    f_equal. apply map_eq. intros k.
    destruct (decide (k = artists_path)) as [->|];
      [by rewrite !lookup_insert_eq|].
    destruct (decide (k = songs_path)) as [->|].
    + rewrite (lookup_insert_ne _ artists_path) by done.
      rewrite lookup_insert_eq.
      rewrite (lookup_insert_ne _ artists_path) by done.
      by rewrite lookup_insert_eq.
    + by rewrite !lookup_insert_ne.
Qed.

Lemma C5_dedup_idempotent_witness :
  (∃ songs' artists',
     songs_table (with_appended Sample.catalog_df
                    [Data <$> Sample.track "P1" "Band" "T1" "Song A" 2000])
     = Ok songs' ∧
     artists_table (with_appended Sample.catalog_df
                      [Data <$> Sample.track "P1" "Band" "T1" "Song A" 2000])
     = Ok artists' ∧
     columns songs' = columns Sample.songs ∧
     rows songs' ≡ₚ rows Sample.songs ∧
     columns artists' = columns Sample.artists ∧
     rows artists' ≡ₚ rows Sample.artists) ∧
  process_song_data Sample.utc input_root output_root Sample.store1
  = (Ok (), Sample.store1).
Proof.
  split.
  - apply (proj1 C5_dedup_idempotent Sample.catalog_df
             [Data <$> Sample.track "P1" "Band" "T1" "Song A" 2000]
             Sample.songs Sample.artists).
    + intros x ->%list_elem_of_singleton. vm_compute. left.
    + vm_compute. reflexivity.
    + vm_compute. reflexivity.
  - apply (proj2 C5_dedup_idempotent Sample.utc Sample.store0 Sample.store1).
    vm_compute. reflexivity.
Defined.

(** ** The synthetic identifiers *)








(** ** Referential integrity *)

Lemma resolve_app_r_at a b n i j :
  resolve (a ++ b) n = Ok i → resolve b n = Ok j → i = (length a + j)%nat.
Proof.
  intros Hi [Hj Hu]%resolve_Ok.
  destruct (resolve_app_r _ _ _ _ Hi) as (k & -> & Hk).
  { by eapply list_elem_of_lookup_2. }
  by rewrite (Hu k Hk).
Qed.

(** The rows of a deduplicated projection come from rows of the source. *)
Lemma distinct_select_row df names t r :
  distinct <$$> select df names = Ok t → r ∈ rows t →
  ∃ idxs c, Forall2 (λ n i, resolve (columns df) n = Ok i) names idxs ∧
            c ∈ rows df ∧ r = cell c <$> idxs.
Proof.
  intros H Hr. inv_try H. subst t.
  apply select_Ok in Ha as (_ & idxs & Hi & Hrows).
  simpl in Hr. rewrite elem_of_remove_dups, Hrows in Hr.
  apply list_elem_of_fmap in Hr as (c & -> & Hc). eauto.
Qed.

Lemma distinct_select_row_of df names t idxs c :
  distinct <$$> select df names = Ok t →
  Forall2 (λ n i, resolve (columns df) n = Ok i) names idxs →
  c ∈ rows df → cell c <$> idxs ∈ rows t.
Proof.
  intros H Hi Hc. inv_try H. subst t.
  apply select_Ok in Ha as (_ & idxs' & Hi' & Hrows).
  assert (idxs' = idxs) as ->.
  { clear -Hi Hi'. revert idxs' Hi'.
    induction Hi as [|n i ns ks Hn _ IH]; intros idxs' Hi'.
    - by apply Forall2_nil_inv_l in Hi'.
    - apply Forall2_cons_inv_l in Hi' as (i' & is' & Hn' & Hi' & ->).
      f_equal; [congruence | by apply IH]. }
  simpl. rewrite elem_of_remove_dups, Hrows.
  apply list_elem_of_fmap. eauto.
Qed.

(** Inversion of a resolution of literal column names. *)
Ltac inv_resolved :=
  repeat match goal with
  | H : Forall2 _ (_ :: _) _ |- _ =>
      let R := fresh "R" in
      apply Forall2_cons_inv_l in H as (? & ? & R & H & ->)
  | H : Forall2 _ [] _ |- _ => apply Forall2_nil_inv_l in H as ->
  end.

Lemma songs_table_artist df t r :
  songs_table df = Ok t → r ∈ rows t →
  ∃ c i, c ∈ rows df ∧ resolve (columns df) "artist_id" = Ok i ∧
         cell r 2 = cell c i.
Proof.
  intros Ht Hr.
  destruct (distinct_select_row _ _ _ _ Ht Hr) as (ks & c & Hks & Hc & ->).
  unfold songs_columns in Hks. inv_resolved.
  match goal with
  | R : resolve _ "artist_id" = Ok ?i |- _ => by exists c, i
  end.
Qed.

Lemma artists_table_artist df t c i :
  artists_table df = Ok t → c ∈ rows df →
  resolve (columns df) "artist_id" = Ok i →
  ∃ a, a ∈ rows t ∧ cell a 0 = cell c i.
Proof.
  intros Ht Hc Hi. pose proof Ht as H. unfold artists_table in H.
  inv_try H. apply select_Ok in Ha as (_ & js & Hjs & _).
  exists (cell c <$> js). split.
  - by eapply distinct_select_row_of.
  - unfold artists_columns in Hjs. inv_resolved. simpl. unfold cell at 1.
    simpl. congruence.
Qed.

Lemma lookup_values (r : row) i :
  default VNull ((value_of <$> r) !! i) = value_of (cell r i).
Proof. unfold cell. rewrite list_lookup_fmap. by destruct (r !! i). Qed.

(** The rows that a read of the stored songs table gives: the three data
    columns as they were written, the two partition columns as the
    engine infers them. *)
Lemma frame_songs spark songs s :
  s ∈ rows (frame spark (as_stored (songs_layout songs) 2)) →
  ∃ r, r ∈ rows songs ∧
    let t := as_stored (songs_layout songs) 2 in
    (value_of <$> (cell r <$> [0; 1; 4; 3; 2]%nat)) ∈ table_rows t ∧
    cell s 0 = Data (value_of (cell r 0)) ∧
    cell s 4 = Data (partition_value spark (table_column t 4)
                       (value_of (cell r 2))).
Proof.
  unfold frame, as_stored, values, songs_layout. simpl.
  rewrite <- !list_fmap_compose.
  intros (r & -> & Hr)%list_elem_of_fmap. exists r. split; [done|].
  split; [|done].
  apply list_elem_of_fmap. by exists r.
Qed.

(** C8, amended.  After the catalog stage has run and the log stage has
    assembled the fact table, every [song_id] of a fact row is the
    [song_id] of a row of the songs table in the store.  The [artist_id]
    of a fact row comes from the songs table as it is read back, where
    [artist_id] is a partition column: when the engine reads the artist
    ids back as they were written, it is the [artist_id] of a row of the
    artists table in the store. *)
Theorem C8_referential_integrity cluster st st1 st2 facts :
  wf_store st →
  process_song_data cluster input_root output_root st = (Ok (), st1) →
  assemble_songplays cluster input_root output_root st1 = (Ok facts, st2) →
  ∃ songs artists,
    st2 !! songs_path = Some songs ∧ st2 !! artists_path = Some artists ∧
    (∀ f, f ∈ rows facts →
       ∃ s v, s ∈ table_rows songs ∧
              field facts "song_id" f = Ok (Data v) ∧
              stored_field songs "song_id" s = Ok v) ∧
    ((∀ v, v ∈ stored_column songs "artist_id" →
           partition_value cluster (stored_column songs "artist_id") v = v) →
     ∀ f, f ∈ rows facts →
       ∃ a v, a ∈ table_rows artists ∧
              field facts "artist_id" f = Ok (Data v) ∧
              stored_field artists "artist_id" a = Ok v).
Proof.
  intros Hwf H1 H2.
  destruct (process_song_data_Ok _ _ _ H1)
    as (cat & songs0 & artists0 & Hcat & Hs & Ha & ->).
  destruct (assemble_songplays_inv _ _ _ _ H2)
    as (log & users & df' & times & rs & song_t & Hlog & _ & Hdf & _ & _
        & -> & Hsong & Hfacts).
  destruct output_paths_distinct
    as (_ & _ & ? & ? & ? & ? & ? & ? & ? & _).
  rewrite !lookup_insert_ne in Hlog by done.
  rewrite !(lookup_insert_ne _ _ songs_path) in Hsong by done.
  rewrite lookup_insert_eq in Hsong. injection Hsong as <-.
  eexists _, _. split.
  { rewrite !(lookup_insert_ne _ _ songs_path) by done.
    apply lookup_insert_eq. }
  split.
  { rewrite !(lookup_insert_ne _ _ artists_path) by done.
    apply lookup_insert_eq. }
  assert (Hwl : wf (frame cluster log))
    by exact (frame_wf _ _ (Hwf _ _ Hlog)).
  destruct (with_time_columns_row _ _ _ Hwl Hdf) as (Hwf' & _).
  apply songplays_table_Ok in Hfacts
    as (title & song & idxs & Ht & Hso & Hidx & Hc & Hr).
  assert (Hrow : ∀ f, f ∈ rows facts →
    ∃ l s r, f = cell (l ++ s) <$> idxs ∧ length l = length (columns df') ∧
      r ∈ rows songs0 ∧
      (value_of <$> (cell r <$> [0; 1; 4; 3; 2]%nat))
        ∈ table_rows (as_stored (songs_layout songs0) 2) ∧
      cell s 0 = Data (value_of (cell r 0)) ∧
      cell s 4 = Data (partition_value cluster
                         (table_column (as_stored (songs_layout songs0) 2) 4)
                         (value_of (cell r 2)))).
  { intros f Hf. rewrite Hr in Hf.
    apply list_elem_of_bind in Hf as (l & Hf & Hl).
    apply list_elem_of_fmap in Hf as (s & -> & Hs').
    apply list_elem_of_filter in Hs' as [_ Hs'].
    apply frame_songs in Hs' as (r & Hr0 & Hin & Hc0 & Hc4).
    exists l, s, r. split; [done|]. split; [|done].
    unfold wf in Hwf'. rewrite Forall_forall in Hwf'. by apply Hwf'. }
  simpl in Hidx. unfold songplays_columns in Hidx. inv_resolved.
  match goal with
  | R : resolve _ "song_id" = Ok ?i |- _ =>
      assert (∀ l : row, length l = length (columns df') →
                i = (length l + 0)%nat) as Hsid
        by (intros l ->; by apply (resolve_app_r_at _ _ _ _ _ R))
  end.
  match goal with
  | R : resolve _ "artist_id" = Ok ?i |- _ =>
      assert (∀ l : row, length l = length (columns df') →
                i = (length l + 4)%nat) as Haid
        by (intros l ->; by apply (resolve_app_r_at _ _ _ _ _ R))
  end.
  split.
  - intros f (l & s & r & -> & Hll & Hr0 & Hin & Hc0 & _)%Hrow.
    eexists _, _. split; [exact Hin|]. split.
    + apply field_Ok. exists 3%nat. rewrite Hc. split; [done|]. simpl.
      rewrite (Hsid l Hll), cell_app_r. exact Hc0.
    + done.
  - intros Hpv f (l & s & r & -> & Hll & Hr0 & Hin & _ & Hc4)%Hrow.
    destruct (songs_table_artist _ _ _ Hs Hr0) as (c & i & Hcin & Hi & Hci).
    destruct (artists_table_artist _ _ _ _ Ha Hcin Hi) as (a0 & Ha0 & Hai).
    exists (value_of <$> a0), (value_of (cell r 2)).
    split; [|split].
    + simpl. unfold values. apply list_elem_of_fmap. by exists a0.
    + apply field_Ok. exists 4%nat. rewrite Hc. split; [done|]. simpl.
      rewrite (Haid l Hll), cell_app_r, Hc4. unfold cell at 1. simpl.
      f_equal.
      change (table_column (as_stored (songs_layout songs0) 2) 4)
        with (stored_column (as_stored (songs_layout songs0) 2) "artist_id").
      apply Hpv. change (stored_column ?t "artist_id") with (table_column t 4).
      unfold table_column.
      apply list_elem_of_fmap. eexists. split; [|exact Hin]. done.
    + unfold stored_field. simpl.
      rewrite (artists_table_columns _ _ Ha). simpl.
      rewrite lookup_values. by rewrite Hai, <- Hci.
Qed.

Lemma sample_store_wf : wf_store Sample.store0.
Proof.
  apply map_Forall_insert_2; [split; [repeat constructor|simpl; lia]|].
  apply map_Forall_insert_2; [split; [repeat constructor|simpl; lia]|].
  apply map_Forall_empty.
Qed.

Lemma C8_referential_integrity_witness :
  ∃ songs artists,
    Sample.store2 !! songs_path = Some songs ∧
    Sample.store2 !! artists_path = Some artists ∧
    (∀ f, f ∈ rows Sample.run_facts →
       ∃ s v, s ∈ table_rows songs ∧
              field Sample.run_facts "song_id" f = Ok (Data v) ∧
              stored_field songs "song_id" s = Ok v) ∧
    ((∀ v, v ∈ stored_column songs "artist_id" →
           partition_value Sample.utc (stored_column songs "artist_id") v
           = v) →
     ∀ f, f ∈ rows Sample.run_facts →
       ∃ a v, a ∈ table_rows artists ∧
              field Sample.run_facts "artist_id" f = Ok (Data v) ∧
              stored_field artists "artist_id" a = Ok v).
Proof.
  apply (C8_referential_integrity Sample.utc Sample.store0 Sample.store1
           Sample.store2 Sample.run_facts).
  - exact sample_store_wf.
  - vm_compute. reflexivity.
  - vm_compute. reflexivity.
Defined.

(** C8, as stated, fails on a catalog whose artist ids are made of
    digits.  The songs table is partitioned by [artist_id]; the engine
    reads the directory of the artist "0123" back as the number 123, and
    that is the [artist_id] of the fact row, while the row of the artists
    table, which is not partitioned, holds the string "0123". *)
Lemma C8_counterexample :
  process_song_data Sample.utc input_root output_root Sample.numbered_store
  = (Ok (), Sample.numbered_store1) ∧
  (assemble_songplays Sample.utc input_root output_root
     Sample.numbered_store1).1 = Ok Sample.numbered_facts ∧
  Sample.numbered_store1 !! artists_path = Some Sample.numbered_artists ∧
  field Sample.numbered_facts "artist_id" <$> rows Sample.numbered_facts
  = [Ok (Data (VInt 123))] ∧
  stored_field Sample.numbered_artists "artist_id"
    <$> table_rows Sample.numbered_artists
  = [Ok (VStr "0123")].
Proof. repeat split; vm_compute; reflexivity. Qed.

(** ** Full refresh *)

(** C9: a write in overwrite mode replaces what the path held.  After
    two successful writes to one path the store is what the second write
    alone would have left, and the path holds the second table in its
    stored layout.  For the job: after a run of [process_song_data] on a
    catalog [cat1] and a second run on a catalog [cat2], the store is the
    one that the run on [cat2] alone leaves, and the two table paths hold
    the songs and artists of [cat2]. *)
Theorem C9_full_refresh :
  (∀ spark df1 df2 path by1 by2 st st1 st2,
     write_parquet spark df1 path "overwrite" by1 st = (Ok (), st1) →
     write_parquet spark df2 path "overwrite" by2 st1 = (Ok (), st2) →
     write_parquet spark df2 path "overwrite" by2 st = (Ok (), st2) ∧
     ∃ d2 rs, partitioned df2 by2 = Ok d2 ∧ compute spark d2 = Ok rs ∧
              st2 !! path = Some (mkTable (columns d2) rs (length by2))) ∧
  (∀ spark st cat1 cat2 st1 st2,
     process_song_data spark input_root output_root
       (<[song_data_path := cat1]> st) = (Ok (), st1) →
     process_song_data spark input_root output_root
       (<[song_data_path := cat2]> st1) = (Ok (), st2) →
     process_song_data spark input_root output_root
       (<[song_data_path := cat2]> st) = (Ok (), st2) ∧
     ∃ songs artists ds da rs ra,
       songs_table (frame spark cat2) = Ok songs ∧
       artists_table (frame spark cat2) = Ok artists ∧
       partitioned songs ["year"; "artist_id"] = Ok ds ∧
       partitioned artists [] = Ok da ∧
       compute spark ds = Ok rs ∧ compute spark da = Ok ra ∧
       st2 !! songs_path = Some (mkTable (columns ds) rs 2) ∧
       st2 !! artists_path = Some (mkTable (columns da) ra 0)).
Proof.
  split.
  - intros spark df1 df2 path by1 by2 st st1 st2 H1 H2.
    apply write_overwrite_Ok in H1 as (d1 & rs1 & _ & _ & ->).
    apply write_overwrite_Ok in H2 as (d2 & rs2 & Hd2 & Hrs2 & ->).
    rewrite insert_insert_eq. split.
    + rewrite write_overwrite, Hd2. unfold write_job. by rewrite Hrs2.
    + exists d2, rs2. split; [done|]. split; [done|]. apply lookup_insert_eq.
  - intros spark st cat1 cat2 st1 st2 H1 H2.
    destruct output_paths_distinct as (? & ? & _ & _ & ? & _).
    destruct (process_song_data_Ok _ _ _ H1)
      as (c1 & s1 & a1 & _ & _ & _ & ->).
    destruct (process_song_data_Ok _ _ _ H2)
      as (c2 & s2 & a2 & Hc2 & Hs2 & Ha2 & ->).
    rewrite lookup_insert_eq in Hc2. injection Hc2 as <-.
    pose proof (songs_table_columns _ _ Hs2) as Hsc.
    pose proof (artists_table_columns _ _ Ha2) as Hac.
    pose proof (distinct_select_plain _ _ _ (frame_plain spark cat2) Hs2)
      as Hsp.
    pose proof (distinct_select_plain _ _ _ (frame_plain spark cat2) Ha2)
      as Hap.
    split.
    + rewrite (process_song_data_run _ _ cat2) by apply lookup_insert_eq.
      rewrite Hs2. cbv zeta. rewrite Ha2.
      f_equal. apply map_eq. intros k.
      destruct (decide (k = artists_path)) as [->|]; [by map_lookup|].
      destruct (decide (k = songs_path)) as [->|]; [by map_lookup|].
      destruct (decide (k = song_data_path)) as [->|]; by map_lookup.
    + exists s2, a2, (songs_layout s2), a2, (values (songs_layout s2)),
        (values a2).
      split; [done|]. split; [done|].
      split; [by apply partitioned_songs|].
      split. { apply (partitioned_five artists_columns); [by left|done|].
               by eapply distinct_select_wf. }
      split; [by apply compute_plain, songs_layout_plain|].
      split; [by apply compute_plain|]. split.
      * rewrite lookup_insert_ne by done. apply lookup_insert_eq.
      * apply lookup_insert_eq.
Qed.

Lemma C9_full_refresh_witness :
  (write_parquet Sample.utc Sample.songs songs_path "overwrite"
     ["year"; "artist_id"] Sample.store0
   = (Ok (), <[songs_path := Sample.stored_songs]> Sample.store0) ∧
   ∃ d2 rs, partitioned Sample.songs ["year"; "artist_id"] = Ok d2 ∧
            compute Sample.utc d2 = Ok rs ∧
            <[songs_path := Sample.stored_songs]> Sample.store0 !! songs_path
            = Some (mkTable (columns d2) rs
                      (length ["year"; "artist_id"]))) ∧
  (process_song_data Sample.utc input_root output_root
     (<[song_data_path := Sample.catalog]> ∅) = (Ok (), Sample.refreshed) ∧
   ∃ songs artists ds da rs ra,
     songs_table (frame Sample.utc Sample.catalog) = Ok songs ∧
     artists_table (frame Sample.utc Sample.catalog) = Ok artists ∧
     partitioned songs ["year"; "artist_id"] = Ok ds ∧
     partitioned artists [] = Ok da ∧
     compute Sample.utc ds = Ok rs ∧ compute Sample.utc da = Ok ra ∧
     Sample.refreshed !! songs_path = Some (mkTable (columns ds) rs 2) ∧
     Sample.refreshed !! artists_path = Some (mkTable (columns da) ra 0)).
Proof.
  split.
  - apply (proj1 C9_full_refresh Sample.utc Sample.artists Sample.songs
             songs_path [] ["year"; "artist_id"] Sample.store0
             (<[songs_path := as_stored Sample.artists 0]> Sample.store0)).
    + vm_compute. reflexivity.
    + vm_compute. reflexivity.
  - apply (proj2 C9_full_refresh Sample.utc ∅ Sample.small_catalog
             Sample.catalog Sample.first_run).
    + vm_compute. reflexivity.
    + vm_compute. reflexivity.
Defined.

